(** * Agent_L: the translate / evaluate / retry workflow of [langgraph_L/demo.py]

    A shallow embedding of the LangGraph demo: the keyword classifier, the
    intent, translate and eval nodes, the two routing functions and the graph
    that wires them, followed by the properties of the retry loop.

    Python strings are sequences of Unicode code points ([list N]); the chat
    model is an interface ([ChatModel]) whose calls are threaded through a
    small state-and-exception monad that also records every call made.

    What the code takes from the Python runtime is a parameter of the
    workflow: [str.lower], [repr], [json.loads] (which may raise for reasons
    of the interpreter as well as of the text) and the encoding of standard
    output. The sample sessions run on instances of them: ASCII lowercasing,
    a scanner for the JSON grammar, a UTF-8 output. *)

From Stdlib Require Import List NArith ZArith Bool Lia String Ascii.
Import ListNotations.

Set Implicit Arguments.
Set Warnings "-register-all".

(** ** Python strings *)

Module Py.

Local Open Scope N_scope.

(** A [str] is the list of its code points. *)
Definition str := list N.

(** An ASCII literal of this file as a [str]. *)
Definition lit (s : string) : str := map N_of_ascii (list_ascii_of_string s).

Definition str_eqb (a b : str) : bool :=
  if list_eq_dec N.eq_dec a b then true else false.

(** [s.startswith(p)]. *)
Fixpoint startswith (p s : str) : bool :=
  match p, s with
  | [], _ => true
  | _ :: _, [] => false
  | c :: p', d :: s' => N.eqb c d && startswith p' s'
  end.

(** [needle in hay] on strings: [needle] occurs as a contiguous run. *)
Fixpoint contains (needle hay : str) : bool :=
  startswith needle hay ||
  match hay with
  | [] => false
  | _ :: hay' => contains needle hay'
  end.

(** [str.isspace] on one code point: CPython's [_PyUnicode_IsWhitespace]. *)
Definition is_space (c : N) : bool :=
  ((0x09 <=? c) && (c <=? 0x0D)) || ((0x1C <=? c) && (c <=? 0x20))
  || (c =? 0x85) || (c =? 0xA0) || (c =? 0x1680)
  || ((0x2000 <=? c) && (c <=? 0x200A))
  || (c =? 0x2028) || (c =? 0x2029) || (c =? 0x202F) || (c =? 0x205F)
  || (c =? 0x3000).

Fixpoint lstrip (s : str) : str :=
  match s with
  | c :: s' => if is_space c then lstrip s' else s
  | [] => []
  end.

Definition rstrip (s : str) : str := rev (lstrip (rev s)).

(** [s.strip()]: leading and trailing whitespace removed. *)
Definition strip (s : str) : str := rstrip (lstrip s).

(** Truthiness of a string: [if s:] holds for a non-empty one. *)
Definition truthy_str (s : str) : bool :=
  match s with [] => false | _ :: _ => true end.

(** The ASCII part of [str.lower] on one code point ([A-Z] to [a-z]). *)
Definition ascii_lower_cp (c : N) : N :=
  if (0x41 <=? c) && (c <=? 0x5A) then c + 32 else c.

(** [str.lower()] restricted to what it does to ASCII letters: the instance
    of the lowercasing parameter used to run the model on examples. *)
Definition ascii_lower (s : str) : str := map ascii_lower_cp s.

(** Two strings that differ at most in the case of ASCII letters. *)
Definition case_variant (a b : str) : Prop :=
  Forall2 (fun c d => ascii_lower_cp c = ascii_lower_cp d) a b.

End Py.
Import Py.

(** ** JSON values and the JSON grammar *)

Module Json.

Local Open Scope N_scope.

(** A float read from a JSON text, kept as the decimal it was written as:
    the double nearest to [(-1)^neg * mant * 10^exp10]; [NaN] and the two
    infinities are accepted by [json.loads] as literals. *)
Inductive pyfloat :=
| FNaN
| FInf (neg : bool)
| FDec (neg : bool) (mant : N) (exp10 : Z).

(** What [json.loads] can return. A [PDict] keeps the members in the order
    read; a repeated key is resolved by [dict_get] (the last one wins). *)
Inductive pyval :=
| PNone
| PBool (b : bool)
| PInt (z : Z)
| PFloat (f : pyfloat)
| PStr (s : str)
| PList (l : list pyval)
| PDict (d : list (str * pyval)).

(** [d.get(k, default)]. *)
Definition dict_get (d : list (str * pyval)) (k : str) (default : pyval) : pyval :=
  fold_left (fun acc kv => if str_eqb (fst kv) k then snd kv else acc) d default.

(** A decimal [mant * 10^exp10] rounds to the double zero when it is zero or
    at most half the least subnormal, [2^-1075] (ties go to even). *)
Definition float_is_zero (f : pyfloat) : bool :=
  match f with
  | FNaN | FInf _ => false
  | FDec _ m e =>
      (m =? 0) ||
      (if (0 <=? e)%Z then false
       else (Z.of_N m * 2 ^ 1075 <=? 10 ^ (- e))%Z)
  end.

(** [bool(v)]: Python truthiness of a JSON value. *)
Definition truthy (v : pyval) : bool :=
  match v with
  | PNone => false
  | PBool b => b
  | PInt z => negb (z =? 0)%Z
  | PFloat f => negb (float_is_zero f)
  | PStr s => truthy_str s
  | PList l => match l with [] => false | _ :: _ => true end
  | PDict d => match d with [] => false | _ :: _ => true end
  end.

Definition is_ws (c : N) : bool :=
  (c =? 32) || (c =? 9) || (c =? 10) || (c =? 13).

Fixpoint skip_ws (s : str) : str :=
  match s with
  | c :: s' => if is_ws c then skip_ws s' else s
  | [] => []
  end.

Definition is_digit (c : N) : bool := (48 <=? c) && (c <=? 57).

Definition hex_val (c : N) : option N :=
  if is_digit c then Some (c - 48)
  else if (97 <=? c) && (c <=? 102) then Some (c - 87)
  else if (65 <=? c) && (c <=? 70) then Some (c - 55)
  else None.

Definition hex4 (a b c d : N) : option N :=
  match hex_val a, hex_val b, hex_val c, hex_val d with
  | Some x, Some y, Some z, Some w => Some (((x * 16 + y) * 16 + z) * 16 + w)
  | _, _, _, _ => None
  end.

(** The one-character escapes: quote, backslash, slash, b, f, n, r, t. *)
Definition simple_escape (c : N) : option N :=
  if c =? 34 then Some 34 else if c =? 92 then Some 92
  else if c =? 47 then Some 47 else if c =? 98 then Some 8
  else if c =? 102 then Some 12 else if c =? 110 then Some 10
  else if c =? 114 then Some 13 else if c =? 116 then Some 9
  else None.

Definition is_high_surrogate (u : N) : bool := (0xD800 <=? u) && (u <=? 0xDBFF).
Definition is_low_surrogate (u : N) : bool := (0xDC00 <=? u) && (u <=? 0xDFFF).
Definition join_surrogates (hi lo : N) : N :=
  0x10000 + (hi - 0xD800) * 0x400 + (lo - 0xDC00).

(** [scanstring] in strict mode, from just after the opening quote: the
    decoded string and the text after the closing quote. *)
Fixpoint scanstring (s acc : str) : option (str * str) :=
  match s with
  | [] => None
  | c :: s1 =>
      if c =? 34 then Some (rev acc, s1)
      else if c =? 92 then
        match s1 with
        | [] => None
        | e :: s2 =>
            if e =? 117 then
              match s2 with
              | h1 :: h2 :: h3 :: h4 :: s3 =>
                  match hex4 h1 h2 h3 h4 with
                  | None => None
                  | Some u =>
                      match s3 with
                      | b :: x :: g1 :: g2 :: g3 :: g4 :: s4 =>
                          if is_high_surrogate u && (b =? 92) && (x =? 117) then
                            match hex4 g1 g2 g3 g4 with
                            | None => None
                            | Some v =>
                                if is_low_surrogate v
                                then scanstring s4 (join_surrogates u v :: acc)
                                else scanstring s3 (u :: acc)
                            end
                          else scanstring s3 (u :: acc)
                      | _ => scanstring s3 (u :: acc)
                      end
                  end
              | _ => None
              end
            else
              match simple_escape e with
              | Some x => scanstring s2 (x :: acc)
              | None => None
              end
        end
      else if c <? 32 then None
      else scanstring s1 (c :: acc)
  end.

Fixpoint span_digits (s : str) : str * str :=
  match s with
  | c :: s' =>
      if is_digit c then let (d, r) := span_digits s' in (c :: d, r) else ([], s)
  | [] => ([], [])
  end.

Definition digits_val (d : str) : N :=
  fold_left (fun a c => a * 10 + (c - 48)) d 0.

(** The integer part of a number: [0], or a digit [1-9] and more digits. *)
Definition int_part (s : str) : option (str * str) :=
  match s with
  | c :: s1 =>
      if c =? 48 then Some ([c], s1)
      else if is_digit c then let (d, r) := span_digits s1 in Some (c :: d, r)
      else None
  | [] => None
  end.

(** The fraction: a dot and at least one digit, or nothing. *)
Definition frac_part (s : str) : option str * str :=
  match s with
  | dot :: d :: s2 =>
      if (dot =? 46) && is_digit d
      then let (ds, r) := span_digits (d :: s2) in (Some ds, r)
      else (None, s)
  | _ => (None, s)
  end.

(** The exponent: e or E, an optional sign and at least one digit, or nothing. *)
Definition exp_part (s : str) : option Z * str :=
  match s with
  | e :: s1 =>
      if (e =? 101) || (e =? 69) then
        let (neg, s2) :=
          match s1 with
          | sg :: s2 =>
              if sg =? 45 then (true, s2)
              else if sg =? 43 then (false, s2) else (false, s1)
          | [] => (false, s1)
          end in
        let (ds, r) := span_digits s2 in
        match ds with
        | [] => (None, s)
        | _ :: _ =>
            (Some (if neg then - Z.of_N (digits_val ds) else Z.of_N (digits_val ds))%Z, r)
        end
      else (None, s)
  | [] => (None, s)
  end.

(** A JSON number: an [int] when it has neither fraction nor exponent, a
    [float] otherwise. *)
Definition match_number (s : str) : option (pyval * str) :=
  let (neg, s0) :=
    match s with
    | c :: s' => if c =? 45 then (true, s') else (false, s)
    | [] => (false, s)
    end in
  match int_part s0 with
  | None => None
  | Some (ip, r1) =>
      let (fp, r2) := frac_part r1 in
      let (ep, r3) := exp_part r2 in
      match fp, ep with
      | None, None =>
          Some (PInt (if neg then - Z.of_N (digits_val ip) else Z.of_N (digits_val ip))%Z, r3)
      | _, _ =>
          let fd := match fp with Some d => d | None => [] end in
          let ex := match ep with Some x => x | None => 0%Z end in
          Some (PFloat (FDec neg (digits_val (ip ++ fd))
                             (ex - Z.of_nat (List.length fd))%Z), r3)
      end
  end.

(** The named constants, tried when the text is no number. *)
Definition match_constant (s : str) : option (pyval * str) :=
  if startswith (lit "null") s then Some (PNone, skipn 4 s)
  else if startswith (lit "true") s then Some (PBool true, skipn 4 s)
  else if startswith (lit "false") s then Some (PBool false, skipn 5 s)
  else if startswith (lit "NaN") s then Some (PFloat FNaN, skipn 3 s)
  else if startswith (lit "Infinity") s then Some (PFloat (FInf false), skipn 8 s)
  else if startswith (lit "-Infinity") s then Some (PFloat (FInf true), skipn 9 s)
  else None.

(** The scanner: one JSON term at the head of [s] and the text after it.
    [fuel] bounds the nesting of calls; [grammar_loads] gives it enough for
    the whole text. *)
Fixpoint scan_once (fuel : nat) (s : str) : option (pyval * str) :=
  match fuel with
  | O => None
  | S fuel' =>
      match s with
      | [] => None
      | c :: s1 =>
          if c =? 34 then
            match scanstring s1 [] with
            | Some (k, r) => Some (PStr k, r)
            | None => None
            end
          else if c =? 123 then
            match skip_ws s1 with
            | c' :: r =>
                if c' =? 125 then Some (PDict [], r)
                else parse_object fuel' (c' :: r) []
            | [] => None
            end
          else if c =? 91 then
            match skip_ws s1 with
            | c' :: r =>
                if c' =? 93 then Some (PList [], r)
                else parse_array fuel' (c' :: r) []
            | [] => None
            end
          else
            match match_constant s with
            | Some r => Some r
            | None => match_number s
            end
      end
  end

with parse_array (fuel : nat) (s : str) (acc : list pyval) : option (pyval * str) :=
  match fuel with
  | O => None
  | S fuel' =>
      match scan_once fuel' s with
      | None => None
      | Some (v, r) =>
          match skip_ws r with
          | c :: r' =>
              if c =? 93 then Some (PList (rev (v :: acc)), r')
              else if c =? 44 then parse_array fuel' (skip_ws r') (v :: acc)
              else None
          | [] => None
          end
      end
  end

with parse_object (fuel : nat) (s : str) (acc : list (str * pyval)) : option (pyval * str) :=
  match fuel with
  | O => None
  | S fuel' =>
      match s with
      | q :: s1 =>
          if q =? 34 then
            match scanstring s1 [] with
            | None => None
            | Some (k, r) =>
                match skip_ws r with
                | colon :: r1 =>
                    if colon =? 58 then
                      match scan_once fuel' (skip_ws r1) with
                      | None => None
                      | Some (v, r2) =>
                          match skip_ws r2 with
                          | c :: r3 =>
                              if c =? 125 then Some (PDict (rev ((k, v) :: acc)), r3)
                              else if c =? 44
                              then parse_object fuel' (skip_ws r3) ((k, v) :: acc)
                              else None
                          | [] => None
                          end
                      end
                    else None
                | [] => None
                end
            end
          else None
      | [] => None
      end
  end.

(** What [json.loads(s)] with the default decoder makes of a text by the
    JSON grammar alone: [None] stands for the [JSONDecodeError] it raises.
    The running interpreter refuses some grammatical texts as well (a
    [RecursionError] on nesting deeper than its stack allows, a [ValueError]
    on an integer over its digit limit); those refusals are no part of this
    function, which serves as [json.loads] on the short, flat responses of
    the sample sessions only. *)
Definition grammar_loads (s : str) : option pyval :=
  if startswith [0xFEFF] s then None
  else
    match scan_once (2 * List.length s + 2) (skip_ws s) with
    | Some (v, r) => match skip_ws r with [] => Some v | _ :: _ => None end
    | None => None
    end.

End Json.
Import Json.

(** ** The chat model and the effects of a node *)

(** One entry of the list handed to [model.invoke]. *)
Record message := { role : str; content : str }.

(** The text generation service: [model.invoke(messages).content]. The
    service has a state of its own ([W]), so it may answer the same messages
    differently from one call to the next. *)
Class ChatModel (W : Type) := invoke : W -> list message -> str * W.

(** The exceptions the program can end in: a missing key of the state or of
    a routing table, the executor running out of its step budget, and
    standard output refusing a line. *)
Inductive exn :=
| KeyError (key : str)
| GraphRecursionError
| UnicodeEncodeError.

Inductive result (A : Type) :=
| Ok (a : A)
| Raise (e : exn).
Arguments Raise {A} e.

(** What a computation runs in: the service, and the calls made so far. *)
Record env (W : Type) := { world : W; calls : list (list message) }.

(** A computation that may call the model and may raise. *)
Definition M (W A : Type) : Type := env W -> result A * env W.

Definition ret {W A : Type} (a : A) : M W A := fun e => (Ok a, e).

Definition raise {W A : Type} (x : exn) : M W A := fun e => (Raise x, e).

Definition bind {W A B : Type} (c : M W A) (k : A -> M W B) : M W B :=
  fun e =>
    match c e with
    | (Ok a, e') => k a e'
    | (Raise x, e') => (Raise x, e')
    end.

Notation "x <- c ;; k" := (bind c (fun x => k))
  (at level 61, c at next level, right associativity).

Definition lift {W A : Type} (r : result A) : M W A := fun e => (r, e).

(** What the model answers to [msgs] in [e], and [e] after that call: the
    service has moved on and the call is recorded. *)
Definition answer {W : Type} `{ChatModel W} (e : env W) (msgs : list message) : str :=
  fst (invoke (world e) msgs).

Definition after_call {W : Type} `{ChatModel W} (e : env W) (msgs : list message) : env W :=
  {| world := snd (invoke (world e) msgs); calls := calls e ++ [msgs] |}.

(** [model.invoke(msgs).content]. *)
Definition model_invoke {W : Type} `{ChatModel W} (msgs : list message) : M W str :=
  fun e => (Ok (answer e msgs), after_call e msgs).

Definition system_msg (c : str) : message := {| role := lit "system"; content := c |}.
Definition user_msg (c : str) : message := {| role := lit "user"; content := c |}.

(** A model that answers from a script, one response per call (the empty
    string once the script is used up): an instance to run sessions on. *)
#[export] Instance scripted : ChatModel (list str) :=
  fun w _ => match w with r :: w' => (r, w') | [] => ([], []) end.

Definition start_env {W : Type} (w : W) : env W := {| world := w; calls := [] |}.

(** ** The session state *)

(** [TranslationState] is a [TypedDict] with [total=False]: every key may be
    absent. A node returns a state holding only the keys it sets. *)
Record TranslationState := {
  query : option str;
  source_text : option str;
  target_lang : option str;
  translation : option str;
  evaluation_ok : option bool;
  evaluation_feedback : option str;
  attempts : option Z;
  max_attempts : option Z
}.

(** [state[key]]: a [KeyError] when the key is absent. *)
Definition getitem {W A : Type} (key : string) (field : option A) : M W A :=
  match field with
  | Some v => ret v
  | None => raise (KeyError (lit key))
  end.

(** [state.get(key, default)]. *)
Definition get_or {A : Type} (field : option A) (default : A) : A :=
  match field with
  | Some v => v
  | None => default
  end.

Definition overwrite {A : Type} (old new : option A) : option A :=
  match new with
  | Some _ => new
  | None => old
  end.

(** How the graph applies a node's return value: each key the node returned
    replaces the state's, the others stay. *)
Definition apply_update (st upd : TranslationState) : TranslationState :=
  {| query := overwrite (query st) (query upd);
     source_text := overwrite (source_text st) (source_text upd);
     target_lang := overwrite (target_lang st) (target_lang upd);
     translation := overwrite (translation st) (translation upd);
     evaluation_ok := overwrite (evaluation_ok st) (evaluation_ok upd);
     evaluation_feedback := overwrite (evaluation_feedback st) (evaluation_feedback upd);
     attempts := overwrite (attempts st) (attempts upd);
     max_attempts := overwrite (max_attempts st) (max_attempts upd) |}.

Definition nl : str := [10%N].
Definition dquote : str := [34%N].

(** The three target-language codes. *)
Definition code_en : str := lit "en".
Definition code_ja : str := lit "ja".
Definition code_fr : str := lit "fr".

Definition is_code (s : str) : bool :=
  str_eqb s code_en || str_eqb s code_ja || str_eqb s code_fr.

(** The keywords of the rule table. *)
Definition kw_fayu : str := [0x6CD5; 0x8BED]%N.      (* fa yu: French, in Chinese *)
Definition kw_fawen : str := [0x6CD5; 0x6587]%N.     (* fa wen *)
Definition kw_french : str := lit "french".
Definition kw_francais : str := lit "fran" ++ [0xE7%N] ++ lit "ais".
Definition kw_riyu : str := [0x65E5; 0x8BED]%N.      (* ri yu: Japanese, in Chinese *)
Definition kw_riwen : str := [0x65E5; 0x6587]%N.     (* ri wen *)
Definition kw_japanese : str := lit "japanese".
Definition kw_nihongo : str := [0x306B; 0x307B; 0x3093; 0x3054]%N. (* hiragana *)
Definition kw_yingyu : str := [0x82F1; 0x8BED]%N.    (* ying yu: English, in Chinese *)
Definition kw_yingwen : str := [0x82F1; 0x6587]%N.   (* ying wen *)
Definition kw_english : str := lit "english".

(** ** The graph: nodes, edges and path maps *)

Inductive node :=
| n_intent
| n_translate_en
| n_translate_ja
| n_translate_fr
| n_eval.

(** Where an edge leads: a node, or [END]. *)
Inductive dest :=
| Goto (n : node)
| END.

(** The path map of the conditional edges out of [intent]. *)
Definition intent_paths : list (str * dest) :=
  [ (code_en, Goto n_translate_en); (code_ja, Goto n_translate_ja);
    (code_fr, Goto n_translate_fr) ].

(** The path map of the conditional edges out of [eval]. *)
Definition eval_paths : list (str * dest) :=
  intent_paths ++ [ (lit "end", END) ].

Fixpoint path_lookup (paths : list (str * dest)) (key : str) : result dest :=
  match paths with
  | (k, d) :: rest => if str_eqb k key then Ok d else path_lookup rest key
  | [] => Raise (KeyError key)
  end.

(** ** The nodes *)

Section Workflow.

Context {W : Type} `{ChatModel W}.

(** [str.lower()]: the Unicode lowercasing of the Python runtime. *)
Variable py_lower : str -> str.

(** [str(v)] of a value that is no string (Python's [repr] of it). *)
Variable py_repr : pyval -> str.

(** [json.loads(s)] with the default decoder, as the running interpreter
    answers it: [Some v] when it returns [v], [None] when it raises. What it
    raises is an [Exception] in every case: a [JSONDecodeError] on a text
    outside the JSON grammar, a [RecursionError] on nesting deeper than the
    interpreter's stack allows, a [ValueError] on an integer with more
    digits than the interpreter converts. *)
Variable json_loads : str -> option pyval.

Definition py_str (v : pyval) : str :=
  match v with
  | PStr s => s
  | _ => py_repr v
  end.

Definition _detect_target_lang_rule (query : str) : option str :=
  let q := py_lower query in
  if contains kw_fayu query || contains kw_fawen query
     || contains kw_french q || contains kw_francais q
  then Some code_fr
  else if contains kw_riyu query || contains kw_riwen query
          || contains kw_japanese q || contains kw_nihongo q
  then Some code_ja
  else if contains kw_yingyu query || contains kw_yingwen query
          || contains kw_english q
  then Some code_en
  else None.

Definition classifier_messages (query : str) : list message :=
  [ system_msg (lit "You are a classifier. Output exactly one token: en, ja, or fr.");
    user_msg (lit "Decide target language for translation request:" ++ nl ++ query) ].

Definition extractor_messages (query : str) : list message :=
  [ system_msg (lit "Extract only the text to be translated.");
    user_msg query ].

(** The [else] branch of [intent_node]: one call to the model, its answer
    stripped and lowercased, and English unless that is one of the codes. *)
Definition intent_fallback (query : str) : M W str :=
  raw <- model_invoke (classifier_messages query) ;;
  let resp := py_lower (strip raw) in
  if negb (is_code resp) then ret code_en else ret resp.

Definition intent_node (state : TranslationState) : M W TranslationState :=
  q <- getitem "query" (query state) ;;
  let rule := _detect_target_lang_rule q in
  lang <- match rule with
          | Some r => if truthy_str r then ret r else intent_fallback q
          | None => intent_fallback q
          end ;;
  raw2 <- model_invoke (extractor_messages q) ;;
  let resp2 := strip raw2 in
  ret {| target_lang := Some lang;
         source_text := Some resp2;
         attempts := Some (get_or (attempts state) 0%Z);
         max_attempts := Some (get_or (max_attempts state) 3%Z);
         evaluation_ok := Some false;
         evaluation_feedback := Some [];
         query := None;
         translation := None |}.

(** The two shapes of the translator's prompt. *)
Definition revise_content (source label feedback : str) : str :=
  lit "Text:" ++ nl ++ source ++ nl ++ nl
  ++ lit "Target language: " ++ label ++ nl ++ nl
  ++ lit "Revise using this feedback:" ++ nl ++ feedback ++ nl ++ nl
  ++ lit "Output only the translation.".

Definition first_pass_content (source label : str) : str :=
  lit "Text:" ++ nl ++ source ++ nl ++ nl
  ++ lit "Target language: " ++ label ++ nl ++ nl
  ++ lit "Output only the translation.".

Definition translator_messages (user_content : str) : list message :=
  [ system_msg (lit "You are a professional translator."); user_msg user_content ].

Definition _translate (state : TranslationState) (label : str) : M W TranslationState :=
  source <- getitem "source_text" (source_text state) ;;
  let feedback := strip (get_or (evaluation_feedback state) []) in
  let n := (get_or (attempts state) 0 + 1)%Z in
  let user_content :=
    if truthy_str feedback
    then revise_content source label feedback
    else first_pass_content source label in
  raw <- model_invoke (translator_messages user_content) ;;
  let text := strip raw in
  ret {| translation := Some text;
         attempts := Some n;
         query := None; source_text := None; target_lang := None;
         evaluation_ok := None; evaluation_feedback := None;
         max_attempts := None |}.

Definition translate_en_node (state : TranslationState) : M W TranslationState :=
  _translate state (lit "English").

Definition translate_ja_node (state : TranslationState) : M W TranslationState :=
  _translate state (lit "Japanese").

Definition translate_fr_node (state : TranslationState) : M W TranslationState :=
  _translate state (lit "French").

Definition evaluator_messages (lang source text : str) : list message :=
  [ system_msg (lit "You are a strict translation evaluator. Respond with valid JSON only.");
    user_msg
      (lit "Target language: " ++ lang ++ nl ++ nl
       ++ lit "Source:" ++ nl ++ source ++ nl ++ nl
       ++ lit "Translation:" ++ nl ++ text ++ nl ++ nl
       ++ lit "Return JSON: {" ++ dquote ++ lit "ok" ++ dquote ++ lit ": boolean, "
       ++ dquote ++ lit "feedback" ++ dquote ++ lit ": string}. "
       ++ lit "If ok is false, feedback must be actionable.") ].

Definition not_valid_json (resp : str) : str :=
  lit "Evaluator output was not valid JSON: " ++ resp.

(** The [try] block of [eval_node] and its [except Exception]: a response
    on which [json.loads] raises, whatever the exception, or one that is no
    object (it has no [get]), lands in the handler. *)
Definition verdict_of (resp : str) : bool * str :=
  match json_loads resp with
  | Some (PDict data) =>
      (truthy (dict_get data (lit "ok") (PBool false)),
       strip (py_str (dict_get data (lit "feedback") (PStr []))))
  | _ => (false, not_valid_json resp)
  end.

Definition eval_node (state : TranslationState) : M W TranslationState :=
  source <- getitem "source_text" (source_text state) ;;
  lang <- getitem "target_lang" (target_lang state) ;;
  text <- getitem "translation" (translation state) ;;
  raw <- model_invoke (evaluator_messages lang source text) ;;
  let resp := strip raw in
  let (ok, feedback) := verdict_of resp in
  ret {| evaluation_ok := Some ok;
         evaluation_feedback := Some feedback;
         query := None; source_text := None; target_lang := None;
         translation := None; attempts := None; max_attempts := None |}.

Definition route_after_intent (state : TranslationState) : result str :=
  match target_lang state with
  | Some l => Ok l
  | None => Raise (KeyError (lit "target_lang"))
  end.

Definition route_after_eval (state : TranslationState) : result str :=
  if get_or (evaluation_ok state) false then Ok (lit "end")
  else if (get_or (max_attempts state) 3 <=? get_or (attempts state) 0)%Z
  then Ok (lit "end")
  else match target_lang state with
       | Some l => Ok l
       | None => Raise (KeyError (lit "target_lang"))
       end.

(** ** The executor *)

Definition run_node (n : node) (state : TranslationState) : M W TranslationState :=
  match n with
  | n_intent => intent_node state
  | n_translate_en => translate_en_node state
  | n_translate_ja => translate_ja_node state
  | n_translate_fr => translate_fr_node state
  | n_eval => eval_node state
  end.

(** The edge taken out of [n], decided on the state after [n]'s update. *)
Definition next_dest (n : node) (state : TranslationState) : result dest :=
  match n with
  | n_intent =>
      match route_after_intent state with
      | Ok key => path_lookup intent_paths key
      | Raise x => Raise x
      end
  | n_translate_en | n_translate_ja | n_translate_fr => Ok (Goto n_eval)
  | n_eval =>
      match route_after_eval state with
      | Ok key => path_lookup eval_paths key
      | Raise x => Raise x
      end
  end.

(** One step of the graph: run the node, apply what it returned, pick the edge. *)
Definition step (n : node) (state : TranslationState) : M W (dest * TranslationState) :=
  upd <- run_node n state ;;
  let state' := apply_update state upd in
  d <- lift (next_dest n state') ;;
  ret (d, state').

(** The executor: steps from [n] until [END]. [limit] is the number of node
    runs it allows: a run that would need one more ends in
    [GraphRecursionError]. It is a budget of node runs, not the
    [recursion_limit] of LangGraph, which counts differently (see
    [invoke_under] below). The result is the trace of the run, each node
    with the state it left. *)
Fixpoint run (limit : nat) (n : node) (state : TranslationState)
  : M W (list (node * TranslationState)) :=
  match limit with
  | O => raise GraphRecursionError
  | S limit' =>
      ds <- step n state ;;
      match fst ds with
      | END => ret [(n, snd ds)]
      | Goto n' =>
          rest <- run limit' n' (snd ds) ;;
          ret ((n, snd ds) :: rest)
      end
  end.

(** [app.invoke(input)] with [limit] node runs allowed: the run from
    [START], whose one edge leads to [intent]; the value is the last state. *)
Definition app_invoke (limit : nat) (input : TranslationState) : M W TranslationState :=
  trace <- run limit n_intent input ;;
  ret (snd (last trace (n_intent, input))).


(** ** The classifier as the specification words it *)

(** The closed set of target languages, in the priority order of the rules. *)
Inductive lang :=
| French
| Japanese
| English.

Definition code_of (l : lang) : str :=
  match l with
  | French => code_fr
  | Japanese => code_ja
  | English => code_en
  end.

(** A keyword of the rule table and the way it is matched: in the query as
    typed (case-sensitively), or in the lowercased query (so in any case). *)
Inductive keyword :=
| AsTyped (k : str)
| AnyCase (k : str).

Definition rule_table : list (lang * list keyword) :=
  [ (French, [AsTyped kw_fayu; AsTyped kw_fawen; AnyCase kw_french; AnyCase kw_francais]);
    (Japanese, [AsTyped kw_riyu; AsTyped kw_riwen; AnyCase kw_japanese; AnyCase kw_nihongo]);
    (English, [AsTyped kw_yingyu; AsTyped kw_yingwen; AnyCase kw_english]) ].

Definition kw_matches (query : str) (k : keyword) : bool :=
  match k with
  | AsTyped k => contains k query
  | AnyCase k => contains k (py_lower query)
  end.

(** The first language of the table one of whose keywords matches. *)
Definition first_match (query : str) : option lang :=
  option_map fst (find (fun row => existsb (kw_matches query) (snd row)) rule_table).

(** The classifier's output for a query, [raw] being what the model answers
    when it is asked: the rule's code if a rule matches, else the model's
    token if it is a valid code, else English. *)
Definition classifier (query raw : str) : str :=
  match first_match query with
  | Some l => code_of l
  | None =>
      let token := py_lower (strip raw) in
      if is_code token then token else code_en
  end.

(** ** Sessions and their traces *)

(** The input of a session, as the entry point builds it. *)
Definition session_input (q : str) (m : Z) : TranslationState :=
  {| query := Some q; attempts := Some 0%Z; max_attempts := Some m;
     source_text := None; target_lang := None; translation := None;
     evaluation_ok := None; evaluation_feedback := None |}.

Definition is_translate (n : node) : bool :=
  match n with
  | n_translate_en | n_translate_ja | n_translate_fr => true
  | _ => false
  end.

Definition is_eval (n : node) : bool :=
  match n with
  | n_eval => true
  | _ => false
  end.

(** The Translator invocations of a run. *)
Definition translator_runs (trace : list (node * TranslationState)) : nat :=
  List.length (filter (fun p => is_translate (fst p)) trace).

(** The states the Evaluator left, one per completed translate-eval cycle. *)
Definition eval_states (trace : list (node * TranslationState)) : list TranslationState :=
  map snd (filter (fun p => is_eval (fst p)) trace).

(** The label each translate node passes to [_translate]. *)
Definition label_of (n : node) : str :=
  match n with
  | n_translate_en => lit "English"
  | n_translate_ja => lit "Japanese"
  | n_translate_fr => lit "French"
  | _ => []
  end.

(** The user content [_translate] builds for a stripped feedback. *)
Definition translate_content (source label feedback : str) : str :=
  if truthy_str feedback
  then revise_content source label feedback
  else first_pass_content source label.

(** A point of a run: the node about to run, the state and the environment. *)
Definition config : Type := node * TranslationState * env W.

(** [reaches c c']: the graph steps from [c] to [c'] in zero or more steps. *)
Inductive reaches : config -> config -> Prop :=
| reaches_here : forall c, reaches c c
| reaches_step : forall n st e n' st' e' c,
    step n st e = (Ok (Goto n', st'), e') ->
    reaches (n', st', e') c ->
    reaches (n, st, e) c.

(** The state with its feedback key removed. *)
Definition without_feedback (st : TranslationState) : TranslationState :=
  {| query := query st; source_text := source_text st; target_lang := target_lang st;
     translation := translation st; evaluation_ok := evaluation_ok st;
     evaluation_feedback := None;
     attempts := attempts st; max_attempts := max_attempts st |}.


(** What [intent_node] returns once the language and the source text are known. *)
Definition intent_update (st : TranslationState) (code source : str) : TranslationState :=
  {| target_lang := Some code;
     source_text := Some source;
     attempts := Some (get_or (attempts st) 0%Z);
     max_attempts := Some (get_or (max_attempts st) 3%Z);
     evaluation_ok := Some false;
     evaluation_feedback := Some [];
     query := None;
     translation := None |}.

(** [r] is [core] with whitespace around it. *)
Definition padded (core r : str) : Prop :=
  exists l t, forallb is_space l = true /\ forallb is_space t = true /\ r = l ++ core ++ t.

(** Two responses that differ only in the case of their letters or in the
    whitespace around them. *)
Definition differ_in_case_or_space (r1 r2 : str) : Prop :=
  exists c1 c2, padded c1 r1 /\ padded c2 r2 /\ case_variant c1 c2.


(** What [_translate] returns: the new translation and the new count. *)
Definition translate_update (text : str) (n : Z) : TranslationState :=
  {| translation := Some text;
     attempts := Some n;
     query := None; source_text := None; target_lang := None;
     evaluation_ok := None; evaluation_feedback := None;
     max_attempts := None |}.

(** What [eval_node] returns: the verdict. *)
Definition eval_update (v : bool * str) : TranslationState :=
  {| evaluation_ok := Some (fst v);
     evaluation_feedback := Some (snd v);
     query := None; source_text := None; target_lang := None;
     translation := None; attempts := None; max_attempts := None |}.

(** The shape of the retry loop's trace. [cycles m a trace]: starting with
    [attempts = a] under the ceiling [m], [trace] is a run of translate-eval
    cycles, each adding one to [attempts]; every cycle but the last is
    rejected below the ceiling, and the last is accepted or at the ceiling. *)
Inductive cycles (m : Z) : Z -> list (node * TranslationState) -> Prop :=
| cycles_last : forall a n st se,
    is_translate n = true ->
    attempts st = Some (a + 1)%Z ->
    attempts se = Some (a + 1)%Z ->
    (evaluation_ok se = Some true \/
     (evaluation_ok se = Some false /\ (m <= a + 1)%Z)) ->
    cycles m a [(n, st); (n_eval, se)]
| cycles_more : forall a n st se rest,
    is_translate n = true ->
    attempts st = Some (a + 1)%Z ->
    attempts se = Some (a + 1)%Z ->
    evaluation_ok se = Some false ->
    (a + 1 < m)%Z ->
    cycles m (a + 1) rest ->
    cycles m a ((n, st) :: (n_eval, se) :: rest).


(** What holds all along a session once the intent step chose the node
    [n1] for the code [c]: the run is at [n1] or at [eval], and the target
    language and the source text are those the intent step set. *)
Definition session_inv (n1 : node) (c src : str) (cfg : config) : Prop :=
  let '(n, st, _) := cfg in
  (n = n1 \/ n = n_eval) /\ target_lang st = Some c /\ source_text st = Some src.

(** ** The entry point *)

(** [print(s)] writes [s] and a newline to standard output. The stream
    encodes what it is given and raises [UnicodeEncodeError] on a string its
    encoding has no bytes for (under UTF-8, one with a lone surrogate):
    [stdout_accepts s] tells whether the stream takes [s]. *)
Variable stdout_accepts : str -> bool.

(** How a run of the program ends: the lines it printed, and the exception
    it raised, if it raised one. *)
Record outcome := { printed : list str; raised : option exn }.

(** [app.invoke(input)] under LangGraph's [recursion_limit]. LangGraph
    counts the step that feeds the input in, and it checks the limit before
    it looks for the next node to run, also when none is left: a run
    returns only if it ends within [recursion_limit - 1] node runs, and one
    in which [recursion_limit] nodes have run ends in
    [GraphRecursionError], whether the last of them led to [END] or not. *)
Definition invoke_under (recursion_limit : nat) (input : TranslationState)
  : M W TranslationState :=
  trace <- run recursion_limit n_intent input ;;
  if (recursion_limit <=? List.length trace)%nat
  then raise GraphRecursionError
  else ret (snd (last trace (n_intent, input))).

(** [main], from the line [input] returned: the line is stripped and run as
    a session under the ceiling 3 and under LangGraph's [recursion_limit]
    (25 unless configured otherwise); the translation is printed, and the
    feedback after it unless the verdict accepts. An exception of the
    session or of a [print] ends the program where it is raised. *)
Definition main (recursion_limit : nat) (typed : str) (e : env W) : outcome * env W :=
  let q := strip typed in
  match invoke_under recursion_limit (session_input q 3) e with
  | (Raise x, e') => ({| printed := []; raised := Some x |}, e')
  | (Ok result, e') =>
      let first := get_or (translation result) [] in
      if negb (stdout_accepts first)
      then ({| printed := []; raised := Some UnicodeEncodeError |}, e')
      else if negb (get_or (evaluation_ok result) false)
      then
        let second := get_or (evaluation_feedback result) [] in
        if negb (stdout_accepts second)
        then ({| printed := [first]; raised := Some UnicodeEncodeError |}, e')
        else ({| printed := [first; second]; raised := None |}, e')
      else ({| printed := [first]; raised := None |}, e')
  end.

(** [steps_trace n st e trace e']: the graph steps from [n] in [st] and [e]
    until [END]; [trace] lists the nodes run with the states they left, and
    [e'] is the environment at the end. *)
Inductive steps_trace :
  node -> TranslationState -> env W -> list (node * TranslationState) -> env W -> Prop :=
| steps_end : forall n st e st' e',
    step n st e = (Ok (END, st'), e') ->
    steps_trace n st e [(n, st')] e'
| steps_more : forall n st e n' st' e1 rest e',
    step n st e = (Ok (Goto n', st'), e1) ->
    steps_trace n' st' e1 rest e' ->
    steps_trace n st e ((n, st') :: rest) e'.

(** A string with no whitespace at either end. *)
Definition stripped (s : str) : Prop := strip s = s.

(** What the loop keeps of a session whose intent step chose the node [n1]
    for the code [c]: the state [st], about to be read by the node [n], still
    has the query [q], the source text [src], the code [c] and the ceiling
    [m]; [n] is [n1] or [eval]; a count and a verdict are there. *)
Definition loop_ready (q : option str) (src c : str) (m : Z) (n1 n : node)
           (st : TranslationState) : Prop :=
  (n = n1 \/ n = n_eval) /\
  query st = q /\ source_text st = Some src /\ target_lang st = Some c /\
  max_attempts st = Some m /\
  (exists a, attempts st = Some a) /\
  (exists b, evaluation_ok st = Some b) /\
  (exists fb, evaluation_feedback st = Some fb).

(** The same of a state [st] left by the node [n], which also holds a
    translation, stripped. *)
Definition loop_state (q : option str) (src c : str) (m : Z) (n1 n : node)
           (st : TranslationState) : Prop :=
  loop_ready q src c m n1 n st /\
  (exists t, translation st = Some t /\ stripped t).


(** ** Sample sessions

    Concrete queries, model scripts and evaluator responses on which the
    workflow is run below. All are ASCII, where [str.lower()] is
    [ascii_lower]. *)

(** A request that names its target language. *)
Definition sample_query : str := lit "Translate 'hello' to French".

(** A request that names none, so that the model is asked. *)
Definition sample_query_plain : str := lit "How would they say 'hello' in Paris?".

(** [{"ok": 1}]: the flag is a number. *)
Definition resp_flag_number : str :=
  lit "{" ++ dquote ++ lit "ok" ++ dquote ++ lit ": 1}".

(** [{"ok": true, "feedback": "Good"}]: an acceptance with a comment. *)
Definition resp_accept_with_comment : str :=
  lit "{" ++ dquote ++ lit "ok" ++ dquote ++ lit ": true, "
  ++ dquote ++ lit "feedback" ++ dquote ++ lit ": " ++ dquote ++ lit "Good" ++ dquote
  ++ lit "}".

(** [{"ok": false, "feedback": "Use the formal register"}]: a rejection. *)
Definition resp_reject : str :=
  lit "{" ++ dquote ++ lit "ok" ++ dquote ++ lit ": false, "
  ++ dquote ++ lit "feedback" ++ dquote ++ lit ": " ++ dquote
  ++ lit "Use the formal register" ++ dquote ++ lit "}".

(** A response that is no JSON at all. *)
Definition resp_prose : str := lit "Looks fine to me".

(** A stand-in for [repr] on the sample runs, none of which has a feedback
    that is not a string. *)
Definition sample_repr (v : pyval) : str := [].

(** [json.loads] on the sample runs: their responses are short and flat, far
    from the interpreter's limits, so the grammar alone decides. *)
Definition sample_loads : str -> option pyval := grammar_loads.

(** A state as the Evaluator finds it: translated once. *)
Definition sample_translated : TranslationState :=
  {| query := Some sample_query;
     source_text := Some (lit "hello");
     target_lang := Some code_fr;
     translation := Some (lit "bonjour");
     evaluation_ok := Some false;
     evaluation_feedback := Some [];
     attempts := Some 1%Z;
     max_attempts := Some 3%Z |}.

(** The same state with a feedback of whitespace only: two spaces and a
    newline. *)
Definition sample_blank_feedback : TranslationState :=
  {| query := Some sample_query;
     source_text := Some (lit "hello");
     target_lang := Some code_fr;
     translation := Some (lit "bonjour");
     evaluation_ok := Some false;
     evaluation_feedback := Some (lit "  " ++ nl);
     attempts := Some 1%Z;
     max_attempts := Some 3%Z |}.

(** The same state with a feedback to act on, whitespace around it. *)
Definition sample_rejected : TranslationState :=
  {| query := Some sample_query;
     source_text := Some (lit "hello");
     target_lang := Some code_fr;
     translation := Some (lit "bonjour");
     evaluation_ok := Some false;
     evaluation_feedback := Some (lit " Use the formal register" ++ nl);
     attempts := Some 1%Z;
     max_attempts := Some 3%Z |}.

(** A session input that supplies neither [attempts] nor [max_attempts]. *)
Definition sample_bare_input : TranslationState :=
  {| query := Some sample_query_plain;
     source_text := None; target_lang := None; translation := None;
     evaluation_ok := None; evaluation_feedback := None;
     attempts := None; max_attempts := None |}.

(** The model's answers in a session of [sample_query] whose three
    translations are all rejected (the second verdict is no JSON). *)
Definition script_three_rejections : list str :=
  [ lit "hello";
    lit "bonjour"; resp_reject;
    lit "Bonjour"; resp_prose;
    lit "Salut"; resp_reject ].

(** [{"ok": false, "feedback": "\ud800"}]: a rejection whose feedback is one
    lone surrogate, written as JSON allows. *)
Definition resp_reject_surrogate : str :=
  lit "{" ++ dquote ++ lit "ok" ++ dquote ++ lit ": false, "
  ++ dquote ++ lit "feedback" ++ dquote ++ lit ": " ++ dquote
  ++ lit "\ud800" ++ dquote ++ lit "}".

(** The model's answers in a session of [sample_query] whose third
    rejection has that feedback. *)
Definition script_surrogate_feedback : list str :=
  [ lit "hello";
    lit "bonjour"; resp_reject;
    lit "Bonjour"; resp_reject;
    lit "Salut"; resp_reject_surrogate ].

(** Standard output in UTF-8: it takes every string but one with a
    surrogate code point. *)
Definition utf8_accepts (s : str) : bool :=
  forallb (fun c => negb ((0xD800 <=? c) && (c <=? 0xDFFF))%N) s.

(** An input whose count is already over its ceiling. *)
Definition sample_over_ceiling : TranslationState :=
  {| query := Some sample_query;
     source_text := None; target_lang := None; translation := None;
     evaluation_ok := None; evaluation_feedback := None;
     attempts := Some 5%Z; max_attempts := Some 3%Z |}.


(** Unfolds the monad's operations in the goal and the hypotheses. *)
Ltac unfold_monad :=
  unfold getitem, model_invoke, bind, ret, raise, lift in *.

(** * Properties *)

Unset Implicit Arguments.

(** ** Strings *)

Lemma lstrip_nil_iff (s : str) : lstrip s = [] <-> forallb is_space s = true.
Proof.
  induction s as [|c s IH]; simpl.
  - tauto.
  - destruct (is_space c); simpl; [exact IH | split; discriminate].
Qed.

Lemma lstrip_blank_or_head (s : str) :
  lstrip s = [] \/ exists c t, lstrip s = c :: t /\ is_space c = false.
Proof.
  induction s as [|c s IH]; simpl.
  - now left.
  - destruct (is_space c) eqn:E; [exact IH | right; eauto].
Qed.

Lemma forallb_rev {A : Type} (f : A -> bool) (l : list A) :
  forallb f (rev l) = forallb f l.
Proof.
  induction l as [|a l IH]; simpl; [reflexivity|].
  rewrite forallb_app, IH; simpl. rewrite andb_true_r. apply andb_comm.
Qed.

Lemma rstrip_nil_iff (s : str) : rstrip s = [] <-> forallb is_space s = true.
Proof.
  unfold rstrip. rewrite <- (forallb_rev is_space s), <- lstrip_nil_iff.
  split; intros E.
  - apply (f_equal (@rev N)) in E. now rewrite rev_involutive in E.
  - now rewrite E.
Qed.

Lemma strip_nil_iff (s : str) : strip s = [] <-> forallb is_space s = true.
Proof.
  unfold strip. rewrite rstrip_nil_iff. split; intros E.
  - apply lstrip_nil_iff.
    destruct (lstrip_blank_or_head s) as [E0 | (c & t & E0 & Hc)]; [exact E0|].
    rewrite E0 in E; simpl in E. now rewrite Hc in E.
  - apply lstrip_nil_iff in E. now rewrite E.
Qed.

Lemma truthy_strip (s : str) : truthy_str (strip s) = negb (forallb is_space s).
Proof.
  destruct (forallb is_space s) eqn:E; simpl.
  - apply strip_nil_iff in E. now rewrite E.
  - destruct (strip s) eqn:E'; [|reflexivity].
    apply strip_nil_iff in E'. congruence.
Qed.


(** ** The JSON scanner

    Every scanner consumes at least one code point, so the fuel that
    [grammar_loads] hands to [scan_once] is never what makes it fail. *)

Lemma skip_ws_length (s : str) : (List.length (skip_ws s) <= List.length s)%nat.
Proof.
  induction s as [|c s IH]; simpl; [lia|].
  destruct (is_ws c); simpl; lia.
Qed.

Lemma span_digits_length (s d r : str) :
  span_digits s = (d, r) -> (List.length r <= List.length s)%nat.
Proof.
  revert d r. induction s as [|c s IH]; simpl; intros d r.
  - intros [= <- <-]. simpl. lia.
  - destruct (is_digit c).
    + destruct (span_digits s) as [d0 r0]. intros [= <- <-].
      specialize (IH d0 r0 eq_refl). lia.
    + intros [= <- <-]. simpl. lia.
Qed.

Lemma scanstring_length (n : nat) :
  forall s acc k r,
    (List.length s <= n)%nat ->
    scanstring s acc = Some (k, r) -> (List.length r < List.length s)%nat.
Proof.
  induction n as [|n IH]; intros s acc k r Hn.
  - destruct s; [discriminate | simpl in Hn; lia].
  - destruct s as [|c s1]; [discriminate|]. simpl in Hn. simpl scanstring.
    destruct (c =? 34)%N; [intros [= <- <-]; simpl; lia|].
    destruct (c =? 92)%N.
    + destruct s1 as [|e s2]; [discriminate|]. simpl in Hn.
      destruct (e =? 117)%N.
      * destruct s2 as [|h1 [|h2 [|h3 [|h4 s3]]]]; try discriminate. simpl in Hn.
        destruct (hex4 h1 h2 h3 h4) as [u|]; [|discriminate].
        assert (Hs3 : forall acc', scanstring s3 acc' = Some (k, r) ->
                      (List.length r < S (S (S (S (S (S (List.length s3)))))))%nat).
        { intros acc' Hy. apply IH in Hy; lia. }
        destruct s3 as [|b [|x [|g1 [|g2 [|g3 [|g4 s4]]]]]];
          try (intros Hy; apply Hs3 in Hy; simpl in *; lia).
        destruct (is_high_surrogate u && (b =? 92) && (x =? 117))%N;
          [|intros Hy; apply Hs3 in Hy; simpl in *; lia].
        destruct (hex4 g1 g2 g3 g4) as [v|]; [|discriminate].
        destruct (is_low_surrogate v); [|intros Hy; apply Hs3 in Hy; simpl in *; lia].
        intros Hy. apply IH in Hy; simpl in *; lia.
      * destruct (simple_escape e); [|discriminate].
        intros Hy. apply IH in Hy; simpl; lia.
    + destruct (c <? 32)%N; [discriminate|].
      intros Hy. apply IH in Hy; simpl; lia.
Qed.

Lemma startswith_length (p s : str) :
  startswith p s = true -> (List.length p <= List.length s)%nat.
Proof.
  revert s. induction p as [|c p IH]; intros [|d s]; simpl; try lia; try discriminate.
  intros Hx. apply andb_true_iff in Hx as [_ Hx]. apply IH in Hx. lia.
Qed.

Lemma match_constant_length (s : str) (v : pyval) (r : str) :
  match_constant s = Some (v, r) -> (List.length r < List.length s)%nat.
Proof.
  unfold match_constant.
  repeat match goal with
         | |- context [startswith ?p s] =>
             let E := fresh "E" in
             destruct (startswith p s) eqn:E;
             [apply startswith_length in E;
              let n := eval vm_compute in (List.length p) in
              change (List.length p) with n in E;
              match goal with
              | |- Some (_, skipn ?k s) = _ -> _ =>
                  let Hx := fresh "Hx" in
                  intros Hx; assert (Hr : r = skipn k s) by congruence;
                  rewrite Hr, length_skipn; lia
              end|]
         end.
  discriminate.
Qed.

Lemma match_number_length (s : str) (v : pyval) (r : str) :
  match_number s = Some (v, r) -> (List.length r < List.length s)%nat.
Proof.
  unfold match_number.
  set (p := match s with
            | c :: s' => if (c =? 45)%N then (true, s') else (false, s)
            | [] => (false, s)
            end).
  assert (Hp : (List.length (snd p) <= List.length s)%nat).
  { subst p. destruct s as [|c s']; simpl; [lia|]. destruct (c =? 45)%N; simpl; lia. }
  destruct p as [neg s0]. simpl in Hp.
  destruct (int_part s0) as [[ip r1]|] eqn:Hi; [|discriminate].
  assert (H1 : (List.length r1 < List.length s0)%nat).
  { unfold int_part in Hi. destruct s0 as [|c s1]; [discriminate|].
    destruct (c =? 48)%N; [injection Hi as <- <-; simpl; lia|].
    destruct (is_digit c); [|discriminate].
    destruct (span_digits s1) as [d r0] eqn:Hd. injection Hi as <- <-.
    apply span_digits_length in Hd. simpl. lia. }
  destruct (frac_part r1) as [fp r2] eqn:Hf.
  assert (H2 : (List.length r2 <= List.length r1)%nat).
  { unfold frac_part in Hf. destruct r1 as [|dot [|d s2]];
      try (injection Hf as <- <-; simpl; lia).
    destruct ((dot =? 46)%N && is_digit d); [|injection Hf as <- <-; simpl; lia].
    destruct (span_digits (d :: s2)) as [ds r0] eqn:Hd. injection Hf as <- <-.
    apply span_digits_length in Hd. simpl in *. lia. }
  destruct (exp_part r2) as [ep r3] eqn:He.
  assert (H3 : (List.length r3 <= List.length r2)%nat).
  { unfold exp_part in He. destruct r2 as [|e s1]; [injection He as <- <-; simpl; lia|].
    destruct ((e =? 101)%N || (e =? 69)%N); [|injection He as <- <-; simpl; lia].
    set (q := match s1 with
              | sg :: s2 => if (sg =? 45)%N then (true, s2)
                            else if (sg =? 43)%N then (false, s2) else (false, s1)
              | [] => (false, s1)
              end) in He.
    assert (Hq : (List.length (snd q) <= List.length s1)%nat).
    { subst q. destruct s1 as [|sg s2]; simpl; [lia|].
      destruct (sg =? 45)%N; simpl; [lia|]. destruct (sg =? 43)%N; simpl; lia. }
    destruct q as [neg' s2]. simpl in Hq.
    destruct (span_digits s2) as [ds r0] eqn:Hd. apply span_digits_length in Hd.
    destruct ds; injection He as <- <-; simpl; lia. }
  destruct fp, ep; intros [= <- <-]; lia.
Qed.

Lemma scanstring_consumes (s acc k r : str) :
  scanstring s acc = Some (k, r) -> (List.length r < List.length s)%nat.
Proof. apply (scanstring_length (List.length s)). lia. Qed.

Lemma skip_ws_cons (s : str) (c : N) (r : str) :
  skip_ws s = c :: r -> (List.length r < List.length s)%nat.
Proof.
  intros Hx. pose proof (skip_ws_length s) as Hl. rewrite Hx in Hl. simpl in Hl. lia.
Qed.

Lemma scan_consumes (f : nat) :
  (forall s v r, scan_once f s = Some (v, r) ->
                 (List.length r < List.length s)%nat) /\
  (forall s acc v r, parse_array f s acc = Some (v, r) ->
                     (List.length r < List.length s)%nat) /\
  (forall s acc v r, parse_object f s acc = Some (v, r) ->
                     (List.length r < List.length s)%nat).
Proof.
  induction f as [|f (IHv & IHa & IHo)]; [repeat split; discriminate|].
  split; [|split].
  - intros [|c s1] v r; [discriminate|]. cbn [scan_once].
    destruct (c =? 34)%N.
    { destruct (scanstring s1 []) as [[k r0]|] eqn:Hk; [|discriminate].
      intros [= <- <-]. apply scanstring_consumes in Hk. simpl. lia. }
    destruct (c =? 123)%N.
    { destruct (skip_ws s1) as [|c' r0] eqn:Hw; [discriminate|].
      apply skip_ws_cons in Hw.
      destruct (c' =? 125)%N; [intros [= <- <-]; simpl; lia|].
      intros Hx. apply IHo in Hx. simpl in *. lia. }
    destruct (c =? 91)%N.
    { destruct (skip_ws s1) as [|c' r0] eqn:Hw; [discriminate|].
      apply skip_ws_cons in Hw.
      destruct (c' =? 93)%N; [intros [= <- <-]; simpl; lia|].
      intros Hx. apply IHa in Hx. simpl in *. lia. }
    destruct (match_constant (c :: s1)) as [[v0 r0]|] eqn:Hc.
    { intros [= <- <-]. now apply match_constant_length in Hc. }
    intros Hx. now apply match_number_length in Hx.
  - intros s acc v r. cbn [parse_array].
    destruct (scan_once f s) as [[v0 r0]|] eqn:Hv; [|discriminate].
    apply IHv in Hv.
    destruct (skip_ws r0) as [|c r1] eqn:Hw; [discriminate|].
    apply skip_ws_cons in Hw.
    destruct (c =? 93)%N; [intros [= <- <-]; lia|].
    destruct (c =? 44)%N; [|discriminate].
    intros Hx. apply IHa in Hx. pose proof (skip_ws_length r1). lia.
  - intros [|q s1] acc v r; [discriminate|]. cbn [parse_object].
    destruct (q =? 34)%N; [|discriminate].
    destruct (scanstring s1 []) as [[k r0]|] eqn:Hk; [|discriminate].
    apply scanstring_consumes in Hk.
    destruct (skip_ws r0) as [|colon r1] eqn:Hw; [discriminate|].
    apply skip_ws_cons in Hw.
    destruct (colon =? 58)%N; [|discriminate].
    destruct (scan_once f (skip_ws r1)) as [[v0 r2]|] eqn:Hv; [|discriminate].
    apply IHv in Hv. pose proof (skip_ws_length r1).
    destruct (skip_ws r2) as [|c r3] eqn:Hw2; [discriminate|].
    apply skip_ws_cons in Hw2.
    destruct (c =? 125)%N; [intros [= <- <-]; simpl; lia|].
    destruct (c =? 44)%N; [|discriminate].
    intros Hy. apply IHo in Hy. pose proof (skip_ws_length r3). simpl. lia.
Qed.

Lemma scan_fuel_stable (f : nat) :
  forall f', (f <= f')%nat ->
  (forall s, (2 * List.length s + 1 <= f)%nat -> scan_once f' s = scan_once f s) /\
  (forall s acc, (2 * List.length s + 2 <= f)%nat ->
                 parse_array f' s acc = parse_array f s acc) /\
  (forall s acc, (2 * List.length s + 2 <= f)%nat ->
                 parse_object f' s acc = parse_object f s acc).
Proof.
  induction f as [|f IH]; intros f' Hf'; [repeat split; intros; lia|].
  destruct f' as [|f']; [lia|].
  destruct (IH f' ltac:(lia)) as (IHv & IHa & IHo).
  destruct (scan_consumes f) as (Cv & _ & _).
  split; [|split].
  - intros [|c s1] Hs; [reflexivity|]. simpl in Hs. cbn [scan_once].
    destruct (c =? 34)%N; [reflexivity|].
    destruct (c =? 123)%N.
    { destruct (skip_ws s1) as [|c' r0] eqn:Hw; [reflexivity|].
      apply skip_ws_cons in Hw.
      destruct (c' =? 125)%N; [reflexivity|]. apply IHo. simpl. lia. }
    destruct (c =? 91)%N.
    { destruct (skip_ws s1) as [|c' r0] eqn:Hw; [reflexivity|].
      apply skip_ws_cons in Hw.
      destruct (c' =? 93)%N; [reflexivity|]. apply IHa. simpl. lia. }
    reflexivity.
  - intros s acc Hs. cbn [parse_array]. rewrite IHv by lia.
    destruct (scan_once f s) as [[v0 r0]|] eqn:Hv; [|reflexivity].
    apply Cv in Hv.
    destruct (skip_ws r0) as [|c r1] eqn:Hw; [reflexivity|].
    apply skip_ws_cons in Hw.
    destruct (c =? 93)%N; [reflexivity|].
    destruct (c =? 44)%N; [|reflexivity].
    apply IHa. pose proof (skip_ws_length r1). lia.
  - intros [|q s1] acc Hs; [reflexivity|]. simpl in Hs. cbn [parse_object].
    destruct (q =? 34)%N; [|reflexivity].
    destruct (scanstring s1 []) as [[k r0]|] eqn:Hk; [|reflexivity].
    apply scanstring_consumes in Hk.
    destruct (skip_ws r0) as [|colon r1] eqn:Hw; [reflexivity|].
    apply skip_ws_cons in Hw.
    destruct (colon =? 58)%N; [|reflexivity].
    pose proof (skip_ws_length r1).
    rewrite IHv by lia.
    destruct (scan_once f (skip_ws r1)) as [[v0 r2]|] eqn:Hv; [|reflexivity].
    apply Cv in Hv.
    destruct (skip_ws r2) as [|c r3] eqn:Hw2; [reflexivity|].
    apply skip_ws_cons in Hw2.
    destruct (c =? 125)%N; [reflexivity|].
    destruct (c =? 44)%N; [|reflexivity].
    apply IHo. pose proof (skip_ws_length r3). lia.
Qed.

(** The fuel [grammar_loads] gives the scanner is enough: more changes nothing. *)
Lemma grammar_loads_fuel (s : str) (k : nat) :
  scan_once (2 * List.length s + 2 + k) (skip_ws s)
  = scan_once (2 * List.length s + 2) (skip_ws s).
Proof.
  apply (scan_fuel_stable (2 * List.length s + 2)); [lia|].
  pose proof (skip_ws_length s). lia.
Qed.

(** ** Substrings *)

Lemma startswith_refl (s : str) : startswith s s = true.
Proof. induction s as [|c s IH]; simpl; [reflexivity|]. now rewrite N.eqb_refl. Qed.

Lemma startswith_app (p s : str) : startswith p (p ++ s) = true.
Proof. induction p as [|c p IH]; simpl; [reflexivity|]. now rewrite N.eqb_refl. Qed.

Lemma contains_prefix (x b : str) : contains x (x ++ b) = true.
Proof.
  destruct x as [|c x]; [now destruct b|].
  change (contains (c :: x) ((c :: x) ++ b))
    with (startswith (c :: x) ((c :: x) ++ b) || contains (c :: x) (x ++ b)).
  now rewrite startswith_app.
Qed.

Lemma contains_app_r (a b x : str) :
  contains x b = true -> contains x (a ++ b) = true.
Proof.
  intros Hb. induction a as [|c a IH]; [exact Hb|].
  simpl. rewrite IH. apply orb_true_r.
Qed.

Lemma contains_suffix (p s : str) : contains s (p ++ s) = true.
Proof.
  apply contains_app_r. rewrite <- (app_nil_r s) at 2. apply contains_prefix.
Qed.

(** Setting a non-empty text into a string changes it. *)
Lemma insert_differs (a x b : str) : x <> [] -> a ++ x ++ b <> a ++ b.
Proof.
  intros Hx Heq. apply app_inv_head in Heq.
  apply (f_equal (@List.length N)) in Heq. rewrite length_app in Heq.
  destruct x; [congruence | simpl in Heq; lia].
Qed.

(** ** The Translator *)

(** What [_translate] does when the source text is there: one call, and an
    update of [translation] and [attempts]. *)
Lemma translate_eq (st : TranslationState) (label src : str) (e : env W) :
  source_text st = Some src ->
  let msgs := translator_messages
                (translate_content src label (strip (get_or (evaluation_feedback st) []))) in
  _translate st label e =
    (Ok {| translation := Some (strip (answer e msgs));
           attempts := Some (get_or (attempts st) 0 + 1)%Z;
           query := None; source_text := None; target_lang := None;
           evaluation_ok := None; evaluation_feedback := None;
           max_attempts := None |},
     after_call e msgs).
Proof.
  intros Hs. unfold _translate, translate_content. unfold_monad. now rewrite Hs.
Qed.

Lemma run_translate_node (n : node) (st : TranslationState) :
  is_translate n = true -> run_node n st = _translate st (label_of n).
Proof. destruct n; simpl; intros; try discriminate; reflexivity. Qed.

(** The label each translate node passes to [_translate]. *)
Lemma label_cases (n : node) :
  is_translate n = true ->
  In (label_of n, n)
     [ (lit "English", n_translate_en);
       (lit "Japanese", n_translate_ja);
       (lit "French", n_translate_fr) ].
Proof.
  destruct n; simpl; intros Hn; try discriminate;
    [left | right; left | right; right; left]; reflexivity.
Qed.

(** The Translator's call, message by message. *)
Lemma translator_call (src label fb : str) :
  translator_messages (translate_content src label fb) =
    [ {| role := lit "system"; content := lit "You are a professional translator." |};
      {| role := lit "user";
         content :=
           (lit "Text:" ++ [10%N] ++ src ++ [10%N] ++ [10%N]
            ++ lit "Target language: " ++ label ++ [10%N] ++ [10%N])
           ++ match fb with
              | [] => []
              | _ :: _ =>
                  lit "Revise using this feedback:" ++ [10%N] ++ fb ++ [10%N] ++ [10%N]
              end
           ++ lit "Output only the translation." |} ].
Proof.
  unfold translator_messages, translate_content, revise_content, first_pass_content,
    system_msg, user_msg, nl.
  destruct fb as [|c fb]; cbn [truthy_str]; do 2 f_equal;
    repeat rewrite <- app_assoc; reflexivity.
Qed.

(** The same, as the two prompts. *)
Lemma translator_call_prompt (src label fb : str) :
  translator_messages (translate_content src label fb) =
    [ {| role := lit "system"; content := lit "You are a professional translator." |};
      {| role := lit "user";
         content :=
           match fb with
           | [] =>
               (lit "Text:" ++ [10%N] ++ src ++ [10%N] ++ [10%N]
                ++ lit "Target language: " ++ label ++ [10%N] ++ [10%N])
               ++ lit "Output only the translation."
           | _ :: _ =>
               (lit "Text:" ++ [10%N] ++ src ++ [10%N] ++ [10%N]
                ++ lit "Target language: " ++ label ++ [10%N] ++ [10%N])
               ++ (lit "Revise using this feedback:" ++ [10%N] ++ fb ++ [10%N] ++ [10%N])
               ++ lit "Output only the translation."
           end |} ].
Proof. rewrite translator_call. now destruct fb. Qed.

(** C8. The Translator's call is a system message, "You are a professional
    translator.", and a user message. For a feedback that is absent, empty
    or all whitespace the user message is the first-pass prompt: the source
    text, the target language and the closing instruction, with no revision
    section; it is the very call made when the state has no feedback at
    all. For a feedback with anything else in it the user message is the
    revise prompt: the same text with the section "Revise using this
    feedback:" and the stripped feedback set before the closing
    instruction; it contains the stripped feedback and is never the
    first-pass prompt. *)
Theorem translate_prompt_shape :
  forall (st : TranslationState) (label src : str) (e : env W),
    source_text st = Some src ->
    let fb := get_or (evaluation_feedback st) [] in
    let newline := [10%N] in
    let opening := lit "Text:" ++ newline ++ src ++ newline ++ newline
                   ++ lit "Target language: " ++ label ++ newline ++ newline in
    let revision := lit "Revise using this feedback:" ++ newline
                    ++ strip fb ++ newline ++ newline in
    let closing := lit "Output only the translation." in
    let call := fun text : str =>
      [ {| role := lit "system"; content := lit "You are a professional translator." |};
        {| role := lit "user"; content := text |} ] in
    (forallb is_space fb = true ->
       _translate st label e = _translate (without_feedback st) label e /\
       snd (_translate st label e) = after_call e (call (opening ++ closing)))
    /\
    (forallb is_space fb = false ->
       snd (_translate st label e) =
         after_call e (call (opening ++ revision ++ closing)) /\
       strip fb <> [] /\
       contains (strip fb) (opening ++ revision ++ closing) = true /\
       opening ++ revision ++ closing <> opening ++ closing).
Proof.
  intros st label src e Hs fb newline opening revision closing call.
  split; intros Hb.
  - assert (Hn : strip fb = []) by now apply strip_nil_iff.
    rewrite (translate_eq st label src e Hs).
    rewrite (translate_eq (without_feedback st) label src e Hs).
    fold fb. cbv zeta. cbn [without_feedback evaluation_feedback get_or snd].
    rewrite Hn. change (strip []) with (@nil N).
    split; [reflexivity|]. now rewrite translator_call.
  - assert (Hne : strip fb <> []).
    { intros Hn. apply strip_nil_iff in Hn. congruence. }
    split; [|split; [exact Hne|split]].
    + rewrite (translate_eq st label src e Hs). fold fb. cbv zeta. cbn [snd].
      rewrite translator_call. destruct (strip fb) eqn:E; [congruence|].
      reflexivity.
    + apply contains_app_r. unfold revision. repeat rewrite <- app_assoc.
      do 2 apply contains_app_r. apply contains_prefix.
    + apply insert_differs. unfold revision. discriminate.
Qed.

(** C9. A Translator step writes [translation] and [attempts] and nothing
    else: the six other keys of the state are as they were. *)
Theorem translate_step_frame :
  forall (n : node) (st st' : TranslationState) (e e' : env W) (d : dest),
    is_translate n = true ->
    step n st e = (Ok (d, st'), e') ->
    query st' = query st /\
    source_text st' = source_text st /\
    target_lang st' = target_lang st /\
    max_attempts st' = max_attempts st /\
    evaluation_ok st' = evaluation_ok st /\
    evaluation_feedback st' = evaluation_feedback st /\
    attempts st' = Some (get_or (attempts st) 0 + 1)%Z /\
    exists raw, translation st' = Some (strip raw).
Proof.
  intros n st st' e e' d Hn Hstep.
  unfold step in Hstep. rewrite (run_translate_node n st Hn) in Hstep.
  destruct (source_text st) as [src|] eqn:Hs.
  - unfold bind in Hstep at 1. rewrite (translate_eq st (label_of n) src e Hs) in Hstep.
    unfold_monad.
    destruct (next_dest n _) as [d0|x]; inversion Hstep; subst; clear Hstep.
    simpl. repeat split; try congruence. eexists; reflexivity.
  - unfold _translate in Hstep. unfold_monad. rewrite Hs in Hstep. discriminate.
Qed.


(** ** The Evaluator *)

Lemma eval_eq (st : TranslationState) (src lang text : str) (e : env W) :
  source_text st = Some src ->
  target_lang st = Some lang ->
  translation st = Some text ->
  let msgs := evaluator_messages lang src text in
  let v := verdict_of (strip (answer e msgs)) in
  eval_node st e =
    (Ok {| evaluation_ok := Some (fst v);
           evaluation_feedback := Some (snd v);
           query := None; source_text := None; target_lang := None;
           translation := None; attempts := None; max_attempts := None |},
     after_call e msgs).
Proof.
  intros Hs Hl Ht. unfold eval_node. unfold_monad. rewrite Hs, Hl, Ht. simpl.
  now destruct (verdict_of _).
Qed.

(** The verdict for a response that [json.loads] rejects or reads as
    something other than an object. *)
Lemma verdict_of_failure (resp : str) :
  (forall d, json_loads resp <> Some (PDict d)) ->
  verdict_of resp = (false, not_valid_json resp).
Proof.
  intros Hno. unfold verdict_of.
  destruct (json_loads resp) as [[| | | | | |d]|]; try reflexivity.
  now destruct (Hno d).
Qed.

Lemma verdict_of_object (resp : str) (d : list (str * pyval)) :
  json_loads resp = Some (PDict d) ->
  verdict_of resp =
    (truthy (dict_get d (lit "ok") (PBool false)),
     strip (py_str (dict_get d (lit "feedback") (PStr [])))).
Proof. intros Hd. unfold verdict_of. now rewrite Hd. Qed.

(** The feedback of a verdict, read off the response. *)
Lemma verdict_feedback (resp : str) :
  snd (verdict_of resp) =
    match json_loads resp with
    | Some (PDict data) => strip (py_str (dict_get data (lit "feedback") (PStr [])))
    | _ => lit "Evaluator output was not valid JSON: " ++ resp
    end.
Proof.
  unfold verdict_of. now destruct (json_loads resp) as [[| | | | | |d]|].
Qed.

(** The Evaluator's call, message by message. *)
Lemma evaluator_call (lang src text : str) :
  evaluator_messages lang src text =
    [ {| role := lit "system";
         content := lit "You are a strict translation evaluator. Respond with valid JSON only." |};
      {| role := lit "user";
         content :=
           lit "Target language: " ++ lang ++ [10%N] ++ [10%N]
           ++ lit "Source:" ++ [10%N] ++ src ++ [10%N] ++ [10%N]
           ++ lit "Translation:" ++ [10%N] ++ text ++ [10%N] ++ [10%N]
           ++ lit "Return JSON: {" ++ [34%N] ++ lit "ok" ++ [34%N] ++ lit ": boolean, "
           ++ [34%N] ++ lit "feedback" ++ [34%N] ++ lit ": string}. "
           ++ lit "If ok is false, feedback must be actionable." |} ].
Proof. reflexivity. Qed.

(** C2, as the code has it. The Evaluator makes its one call and never
    raises on the response, whatever [json.loads] does with it. When
    [json.loads] raises on the response (it is not valid JSON, or the
    interpreter refuses it), or returns something other than an object, the
    verdict is [ok = false] with the feedback "Evaluator output was not
    valid JSON: " followed by the (stripped) response, which the feedback
    thus contains. When [json.loads] returns an object, that is no parse
    failure, whatever its flag is: [ok] is the truthiness of the flag (false
    when it is missing), and the feedback is that of the object, stripped. *)
Theorem eval_never_raises_and_rejects_unparsable :
  forall (st : TranslationState) (src lang text : str) (e : env W),
    source_text st = Some src ->
    target_lang st = Some lang ->
    translation st = Some text ->
    let newline := [10%N] in
    let quote := [34%N] in
    let msgs :=
      [ {| role := lit "system";
           content := lit "You are a strict translation evaluator. Respond with valid JSON only." |};
        {| role := lit "user";
           content :=
             lit "Target language: " ++ lang ++ newline ++ newline
             ++ lit "Source:" ++ newline ++ src ++ newline ++ newline
             ++ lit "Translation:" ++ newline ++ text ++ newline ++ newline
             ++ lit "Return JSON: {" ++ quote ++ lit "ok" ++ quote
             ++ lit ": boolean, " ++ quote ++ lit "feedback" ++ quote
             ++ lit ": string}. "
             ++ lit "If ok is false, feedback must be actionable." |} ] in
    let resp := strip (answer e msgs) in
    exists upd,
      eval_node st e = (Ok upd, after_call e msgs) /\
      ((forall d, json_loads resp <> Some (PDict d)) ->
         evaluation_ok upd = Some false /\
         evaluation_feedback upd =
           Some (lit "Evaluator output was not valid JSON: " ++ resp) /\
         exists fb, evaluation_feedback upd = Some fb /\ contains resp fb = true) /\
      (forall d, json_loads resp = Some (PDict d) ->
         evaluation_ok upd = Some (truthy (dict_get d (lit "ok") (PBool false))) /\
         evaluation_feedback upd =
           Some (strip (py_str (dict_get d (lit "feedback") (PStr []))))).
Proof.
  intros st src lang text e Hs Hl Ht newline quote msgs resp.
  assert (Hmsgs : evaluator_messages lang src text = msgs) by apply evaluator_call.
  eexists. split.
  { rewrite (eval_eq st src lang text e Hs Hl Ht). cbv zeta. rewrite Hmsgs.
    reflexivity. }
  simpl. fold resp.
  split.
  - intros Hno. rewrite verdict_of_failure by exact Hno. simpl.
    repeat split. eexists. split; [reflexivity|].
    apply contains_suffix.
  - intros d Hd. now rewrite (verdict_of_object resp d Hd).
Qed.

(** C3, as the code has it. When an Evaluator step leaves
    [evaluation_ok = true], the response was a JSON object with a truthy
    flag, and [evaluation_feedback] is the stripped text of its feedback
    member: the empty string when that member is missing or a blank string,
    and whatever the evaluator wrote otherwise. *)
Theorem eval_feedback_when_accepted :
  forall (st : TranslationState) (src lang text : str) (e : env W),
    source_text st = Some src ->
    target_lang st = Some lang ->
    translation st = Some text ->
    let msgs := evaluator_messages lang src text in
    let resp := strip (answer e msgs) in
    exists upd,
      eval_node st e = (Ok upd, after_call e msgs) /\
      let st' := apply_update st upd in
      (evaluation_ok st' = Some true ->
       exists d,
         json_loads resp = Some (PDict d) /\
         truthy (dict_get d (lit "ok") (PBool false)) = true /\
         evaluation_feedback st' =
           Some (strip (py_str (dict_get d (lit "feedback") (PStr [])))) /\
         (forall s, dict_get d (lit "feedback") (PStr []) = PStr s ->
                    forallb is_space s = true ->
                    evaluation_feedback st' = Some [])).
Proof.
  intros st src lang text e Hs Hl Ht msgs resp.
  eexists. split; [apply (eval_eq st src lang text e Hs Hl Ht)|]. simpl. fold msgs. fold resp.
  intros Hok.
  destruct (json_loads resp) as [v|] eqn:Hj.
  2:{ rewrite verdict_of_failure in Hok by (intros d; congruence). discriminate. }
  destruct v as [| | | | | |d];
    try (rewrite verdict_of_failure in Hok by (intros d'; congruence); discriminate).
  exists d. rewrite (verdict_of_object resp d Hj) in *. simpl in *.
  split; [reflexivity|]. split; [congruence|]. split; [reflexivity|].
  intros s Hf Hb. rewrite Hf. simpl. f_equal. now apply strip_nil_iff.
Qed.


(** ** The Classifier *)

(** The chain of tests of [_detect_target_lang_rule] is the rule table read
    in its priority order. *)
Lemma detect_first_match (q : str) :
  _detect_target_lang_rule q = option_map code_of (first_match q).
Proof.
  unfold _detect_target_lang_rule, first_match, rule_table. simpl.
  rewrite !orb_false_r, !orb_assoc.
  destruct (contains kw_fayu q || _ || _ || _); [reflexivity|].
  destruct (contains kw_riyu q || _ || _ || _); [reflexivity|].
  destruct (contains kw_yingyu q || _ || _); reflexivity.
Qed.

Lemma first_match_some (q : str) :
  (exists row kw, In row rule_table /\ In kw (snd row) /\ kw_matches q kw = true) ->
  exists l, first_match q = Some l.
Proof.
  intros (row & kw & Hrow & Hkw & Hm). unfold first_match.
  destruct (find _ rule_table) as [r|] eqn:Hf; [now exists (fst r)|].
  pose proof (find_none _ _ Hf row Hrow) as Hnone. simpl in Hnone.
  assert (Hex : existsb (kw_matches q) (snd row) = true)
    by (apply existsb_exists; eauto).
  congruence.
Qed.

Lemma code_of_truthy (l : lang) : truthy_str (code_of l) = true.
Proof. now destruct l. Qed.

Lemma code_of_is_code (l : lang) : is_code (code_of l) = true.
Proof. now destruct l. Qed.

Lemma is_code_cases (c : str) :
  is_code c = true -> c = code_en \/ c = code_ja \/ c = code_fr.
Proof.
  unfold is_code, str_eqb. intros Hc.
  destruct (list_eq_dec N.eq_dec c code_en); [now left|].
  destruct (list_eq_dec N.eq_dec c code_ja); [now right; left|].
  destruct (list_eq_dec N.eq_dec c code_fr); [now right; right|discriminate].
Qed.

(** [intent_node] when a rule matches: the extractor's call is the only one. *)
Lemma intent_eq_rule (st : TranslationState) (q : str) (l : lang) (e : env W) :
  query st = Some q ->
  first_match q = Some l ->
  intent_node st e =
    (Ok (intent_update st (code_of l) (strip (answer e (extractor_messages q)))),
     after_call e (extractor_messages q)).
Proof.
  intros Hq Hl. unfold intent_node. unfold_monad. rewrite Hq.
  cbv beta iota zeta. rewrite detect_first_match, Hl. simpl.
  now rewrite code_of_truthy.
Qed.

(** [intent_node] when no rule matches: the classifier's call, then the
    extractor's. *)
Lemma intent_eq_fallback (st : TranslationState) (q : str) (e : env W) :
  query st = Some q ->
  first_match q = None ->
  let e1 := after_call e (classifier_messages q) in
  let token := py_lower (strip (answer e (classifier_messages q))) in
  intent_node st e =
    (Ok (intent_update st (if is_code token then token else code_en)
                       (strip (answer e1 (extractor_messages q)))),
     after_call e1 (extractor_messages q)).
Proof.
  intros Hq Hl. unfold intent_node, intent_fallback. unfold_monad. rewrite Hq.
  cbv beta iota zeta. rewrite detect_first_match, Hl. simpl.
  now destruct (is_code (py_lower _)).
Qed.

(** [intent_node] in one equation, with the classifier of the specification. *)
Lemma intent_eq (st : TranslationState) (q : str) (e : env W) :
  query st = Some q ->
  exists src e',
    intent_node st e =
      (Ok (intent_update st (classifier q (answer e (classifier_messages q))) src), e').
Proof.
  intros Hq. unfold classifier. destruct (first_match q) as [l|] eqn:Hl.
  - rewrite (intent_eq_rule st q l e Hq Hl). eauto.
  - rewrite (intent_eq_fallback st q e Hq Hl). eauto.
Qed.

(** C4. When a keyword of the rule table occurs in the query (as typed for
    the Chinese names, in the lowercased query for the others), the intent
    step returns the code of the first language of the table, in the order
    French, Japanese, English, that has a matching keyword; the only call
    made to the model is the extractor's, so the fallback is not invoked. *)
Theorem rule_match_decides_without_fallback :
  forall (st : TranslationState) (q : str) (e : env W),
    query st = Some q ->
    (exists row kw, In row rule_table /\ In kw (snd row) /\ kw_matches q kw = true) ->
    exists l upd e',
      first_match q = Some l /\
      _detect_target_lang_rule q = Some (code_of l) /\
      intent_node st e = (Ok upd, e') /\
      target_lang upd = Some (code_of l) /\
      calls e' = calls e ++ [extractor_messages q].
Proof.
  intros st q e Hq Hkw. destruct (first_match_some q Hkw) as [l Hl].
  exists l. do 2 eexists. split; [exact Hl|].
  split; [now rewrite detect_first_match, Hl|].
  split; [apply (intent_eq_rule st q l e Hq Hl)|]. split; reflexivity.
Qed.

(** C5. The Classifier is total: whatever the query and whatever the model
    answers, the intent step returns, and its target language is one of the
    three codes; when no rule matches and the model's answer, stripped and
    lowercased, is not one of the codes, it is English. *)
Theorem classifier_total :
  forall (st : TranslationState) (q : str) (e : env W),
    query st = Some q ->
    exists upd e' c,
      intent_node st e = (Ok upd, e') /\
      target_lang upd = Some c /\
      (c = code_en \/ c = code_ja \/ c = code_fr) /\
      (_detect_target_lang_rule q = None ->
       is_code (py_lower (strip (answer e (classifier_messages q)))) = false ->
       c = code_en).
Proof.
  intros st q e Hq. destruct (first_match q) as [l|] eqn:Hl.
  - do 3 eexists. split; [apply (intent_eq_rule st q l e Hq Hl)|]. simpl.
    split; [reflexivity|]. split.
    + apply is_code_cases, code_of_is_code.
    + rewrite detect_first_match, Hl. discriminate.
  - do 3 eexists. split; [apply (intent_eq_fallback st q e Hq Hl)|]. simpl.
    split; [reflexivity|]. split.
    + destruct (is_code (py_lower _)) eqn:Hc; [now apply is_code_cases | now left].
    + intros _ Hc. now rewrite Hc.
Qed.

(** C7. The intent step leaves a state whose [target_lang] is the
    Classifier's output, with [evaluation_ok = false] and an empty
    [evaluation_feedback]; [attempts] and [max_attempts] are those of the
    incoming state, and 0 and 3 when it does not supply them. *)
Theorem intent_step_initialises :
  forall (st : TranslationState) (q : str) (e : env W),
    query st = Some q ->
    exists upd e',
      intent_node st e = (Ok upd, e') /\
      let st' := apply_update st upd in
      target_lang st' = Some (classifier q (answer e (classifier_messages q))) /\
      evaluation_ok st' = Some false /\
      evaluation_feedback st' = Some [] /\
      attempts st' = Some (get_or (attempts st) 0%Z) /\
      max_attempts st' = Some (get_or (max_attempts st) 3%Z) /\
      (attempts st = None -> attempts st' = Some 0%Z) /\
      (max_attempts st = None -> max_attempts st' = Some 3%Z).
Proof.
  intros st q e Hq. destruct (intent_eq st q e Hq) as (src & e' & Heq).
  do 2 eexists. split; [exact Heq|]. simpl.
  repeat split; intros Hnone; now rewrite Hnone.
Qed.


(** ** Stripping and case *)

Lemma lstrip_app_blank (l x : str) :
  forallb is_space l = true -> lstrip (l ++ x) = lstrip x.
Proof.
  induction l as [|c l IH]; simpl; [reflexivity|].
  intros Hb. apply andb_true_iff in Hb as [Hc Hl]. rewrite Hc. now apply IH.
Qed.

Lemma lstrip_app_nonblank (x t : str) :
  lstrip x <> [] -> lstrip (x ++ t) = lstrip x ++ t.
Proof.
  induction x as [|c x IH]; simpl; [congruence|].
  destruct (is_space c); [exact IH | reflexivity].
Qed.

Lemma rstrip_app_blank (x t : str) :
  forallb is_space t = true -> rstrip (x ++ t) = rstrip x.
Proof.
  intros Hb. unfold rstrip. rewrite rev_app_distr.
  rewrite lstrip_app_blank; [reflexivity | now rewrite forallb_rev].
Qed.

Lemma strip_padded (core r : str) : padded core r -> strip r = strip core.
Proof.
  intros (l & t & Hl & Ht & ->). unfold strip.
  rewrite (lstrip_app_blank l _ Hl).
  destruct (lstrip core) as [|c x] eqn:Hc.
  - apply lstrip_nil_iff in Hc.
    assert (Hall : lstrip (core ++ t) = []).
    { apply lstrip_nil_iff. rewrite forallb_app, Hc, Ht. reflexivity. }
    now rewrite Hall.
  - rewrite lstrip_app_nonblank by congruence.
    rewrite Hc. now apply rstrip_app_blank.
Qed.

Lemma is_space_printable (c : N) :
  (0x21 <= c <= 0x84)%N -> is_space c = false.
Proof.
  intros Hc. unfold is_space.
  repeat match goal with
         | |- context [(?a <=? ?b)%N] => destruct (N.leb_spec a b); try lia
         | |- context [(?a =? ?b)%N] => destruct (N.eqb_spec a b); try lia
         end; reflexivity.
Qed.

Lemma is_space_ascii_lower (c : N) : is_space (ascii_lower_cp c) = is_space c.
Proof.
  unfold ascii_lower_cp.
  destruct (N.leb_spec 0x41 c); destruct (N.leb_spec c 0x5A); simpl; try reflexivity.
  rewrite !is_space_printable by lia. reflexivity.
Qed.

Lemma case_variant_lstrip (a b : str) :
  case_variant a b -> case_variant (lstrip a) (lstrip b).
Proof.
  induction 1 as [|c d a b Hcd Hab IH]; simpl; [constructor|].
  assert (Hs : is_space c = is_space d)
    by now rewrite <- (is_space_ascii_lower c), Hcd, is_space_ascii_lower.
  rewrite Hs. destruct (is_space d); [exact IH | now constructor].
Qed.

Lemma case_variant_rev (a b : str) :
  case_variant a b -> case_variant (rev a) (rev b).
Proof.
  induction 1 as [|c d a b Hcd Hab IH]; simpl; [constructor|].
  apply Forall2_app; [exact IH | now repeat constructor].
Qed.

Lemma case_variant_strip (a b : str) :
  case_variant a b -> case_variant (strip a) (strip b).
Proof.
  intros Hab. unfold strip, rstrip.
  now apply case_variant_rev, case_variant_lstrip, case_variant_rev, case_variant_lstrip.
Qed.

(** [str.lower()] does not depend on the case of the ASCII letters of its
    argument. *)
Hypothesis py_lower_case_variant :
  forall a b, case_variant a b -> py_lower a = py_lower b.

Lemma normalised_equal (r1 r2 : str) :
  differ_in_case_or_space r1 r2 -> py_lower (strip r1) = py_lower (strip r2).
Proof.
  intros (c1 & c2 & H1 & H2 & Hc).
  rewrite (strip_padded c1 r1 H1), (strip_padded c2 r2 H2).
  now apply py_lower_case_variant, case_variant_strip.
Qed.

(** C10. On the fallback path the model's response is stripped and
    lowercased before it is checked against the three codes, so two
    responses that differ only in the case of their letters or in the
    whitespace around them give the same target language. *)
Theorem fallback_response_is_normalised :
  forall (st : TranslationState) (q : str) (e1 e2 : env W),
    query st = Some q ->
    differ_in_case_or_space (answer e1 (classifier_messages q))
                            (answer e2 (classifier_messages q)) ->
    exists upd1 e1' upd2 e2',
      intent_node st e1 = (Ok upd1, e1') /\
      intent_node st e2 = (Ok upd2, e2') /\
      target_lang upd1 = target_lang upd2 /\
      (_detect_target_lang_rule q = None ->
       let token := py_lower (strip (answer e1 (classifier_messages q))) in
       target_lang upd1 = Some (if is_code token then token else code_en)).
Proof.
  intros st q e1 e2 Hq Hd. apply normalised_equal in Hd.
  destruct (first_match q) as [l|] eqn:Hl.
  - do 4 eexists. split; [apply (intent_eq_rule st q l e1 Hq Hl)|].
    split; [apply (intent_eq_rule st q l e2 Hq Hl)|]. simpl. split; [reflexivity|].
    rewrite detect_first_match, Hl. discriminate.
  - do 4 eexists. split; [apply (intent_eq_fallback st q e1 Hq Hl)|].
    split; [apply (intent_eq_fallback st q e2 Hq Hl)|]. simpl.
    rewrite Hd. split; reflexivity.
Qed.


(** ** The graph, step by step *)

Lemma path_lookup_app (p p' : list (str * dest)) (k : str) (d : dest) :
  path_lookup p k = Ok d -> path_lookup (p ++ p') k = Ok d.
Proof.
  induction p as [|[k0 d0] p IH]; simpl; [discriminate|].
  destruct (str_eqb k0 k); [trivial | exact IH].
Qed.

Lemma intent_paths_translate (c : str) (d : dest) :
  path_lookup intent_paths c = Ok d ->
  exists n, d = Goto n /\ is_translate n = true.
Proof.
  unfold intent_paths. simpl.
  destruct (str_eqb code_en c); [intros [= <-]; eauto|].
  destruct (str_eqb code_ja c); [intros [= <-]; eauto|].
  destruct (str_eqb code_fr c); [intros [= <-]; eauto|discriminate].
Qed.

Lemma str_eqb_true (a b : str) : str_eqb a b = true -> a = b.
Proof. unfold str_eqb. now destruct (list_eq_dec N.eq_dec a b). Qed.

(** The three routes out of [intent]: the code, the language label the
    node passes to [_translate], and the node. *)
Lemma intent_paths_cases (c : str) (n : node) :
  path_lookup intent_paths c = Ok (Goto n) ->
  In (c, label_of n, n)
     [ (lit "en", lit "English", n_translate_en);
       (lit "ja", lit "Japanese", n_translate_ja);
       (lit "fr", lit "French", n_translate_fr) ].
Proof.
  unfold intent_paths. simpl.
  destruct (str_eqb code_en c) eqn:E1;
    [apply str_eqb_true in E1; subst c; intros [= <-]; left; reflexivity|].
  destruct (str_eqb code_ja c) eqn:E2;
    [apply str_eqb_true in E2; subst c; intros [= <-]; right; left; reflexivity|].
  destruct (str_eqb code_fr c) eqn:E3;
    [apply str_eqb_true in E3; subst c; intros [= <-]; right; right; left; reflexivity
    | discriminate].
Qed.

Lemma step_translate_eq (n : node) (st : TranslationState) (src : str) (e : env W) :
  is_translate n = true ->
  source_text st = Some src ->
  let msgs := translator_messages
                (translate_content src (label_of n)
                   (strip (get_or (evaluation_feedback st) []))) in
  step n st e =
    (Ok (Goto n_eval,
         apply_update st (translate_update (strip (answer e msgs))
                                           (get_or (attempts st) 0 + 1)%Z)),
     after_call e msgs).
Proof.
  intros Hn Hs. unfold step. rewrite (run_translate_node n st Hn).
  unfold bind at 1. rewrite (translate_eq st (label_of n) src e Hs).
  cbv zeta. unfold_monad. now destruct n.
Qed.

Lemma step_eval_eq (st : TranslationState) (src lang text : str) (e : env W) :
  source_text st = Some src ->
  target_lang st = Some lang ->
  translation st = Some text ->
  let msgs := evaluator_messages lang src text in
  let st' := apply_update st (eval_update (verdict_of (strip (answer e msgs)))) in
  step n_eval st e =
    match next_dest n_eval st' with
    | Ok d => (Ok (d, st'), after_call e msgs)
    | Raise x => (Raise x, after_call e msgs)
    end.
Proof.
  intros Hs Hl Ht. unfold step. unfold bind at 1. simpl run_node.
  rewrite (eval_eq st src lang text e Hs Hl Ht). cbv zeta. unfold_monad.
  unfold eval_update. now destruct (next_dest n_eval _).
Qed.

(** A successful eval step found the three keys it reads. *)
Lemma step_eval_inv (st st' : TranslationState) (e e' : env W) (d : dest) :
  step n_eval st e = (Ok (d, st'), e') ->
  exists src lang text,
    source_text st = Some src /\ target_lang st = Some lang /\
    translation st = Some text.
Proof.
  unfold step, eval_node. simpl run_node. unfold eval_node. unfold_monad.
  destruct (source_text st) as [src|]; [|discriminate].
  destruct (target_lang st) as [lang|]; [|discriminate].
  destruct (translation st) as [text|]; [|discriminate].
  intros _. now exists src, lang, text.
Qed.

Lemma run_S (limit : nat) (n : node) (st : TranslationState) (e : env W) :
  run (S limit) n st e =
    match step n st e with
    | (Ok (END, st'), e') => (Ok [(n, st')], e')
    | (Ok (Goto n', st'), e') =>
        match run limit n' st' e' with
        | (Ok rest, e'') => (Ok ((n, st') :: rest), e'')
        | (Raise x, e'') => (Raise x, e'')
        end
    | (Raise x, e') => (Raise x, e')
    end.
Proof.
  simpl. unfold bind at 1.
  destruct (step n st e) as [[[d st']|x] e']; simpl; [|reflexivity].
  destruct d; [|reflexivity]. unfold bind, ret.
  now destruct (run limit n0 st' e') as [[rest|x] e''].
Qed.

(** The edge out of [eval], case by case. *)
Lemma next_dest_eval_accept (st : TranslationState) :
  evaluation_ok st = Some true -> next_dest n_eval st = Ok END.
Proof. intros Hok. simpl. unfold route_after_eval. now rewrite Hok. Qed.

Lemma next_dest_eval_exhausted (st : TranslationState) :
  (get_or (max_attempts st) 3 <= get_or (attempts st) 0)%Z ->
  next_dest n_eval st = Ok END.
Proof.
  intros Hm. simpl. unfold route_after_eval.
  destruct (get_or (evaluation_ok st) false); [reflexivity|].
  apply Z.leb_le in Hm. now rewrite Hm.
Qed.

Lemma next_dest_eval_retry (st : TranslationState) (c : str) (n : node) :
  get_or (evaluation_ok st) false = false ->
  (get_or (attempts st) 0 < get_or (max_attempts st) 3)%Z ->
  target_lang st = Some c ->
  path_lookup intent_paths c = Ok (Goto n) ->
  next_dest n_eval st = Ok (Goto n).
Proof.
  intros Hok Hlt Hc Hp. unfold next_dest, route_after_eval. rewrite Hok.
  apply Z.leb_gt in Hlt. rewrite Hlt, Hc. unfold eval_paths.
  now apply path_lookup_app.
Qed.


(** ** The retry loop *)

Lemma is_code_path (c : str) :
  is_code c = true -> exists n, path_lookup intent_paths c = Ok (Goto n).
Proof.
  intros Hc. destruct (is_code_cases c Hc) as [-> | [-> | ->]];
    eexists; reflexivity.
Qed.

Lemma classifier_is_code (q raw : str) : is_code (classifier q raw) = true.
Proof.
  unfold classifier. destruct (first_match q) as [l|]; [apply code_of_is_code|].
  simpl. now destruct (is_code (py_lower (strip raw))) eqn:Hc.
Qed.

(** The intent step of a state that has a query: it succeeds and leads to
    the translate node of the Classifier's code. *)
Lemma step_intent_eq (st : TranslationState) (q : str) (e : env W) :
  query st = Some q ->
  exists c src e' n,
    c = classifier q (answer e (classifier_messages q)) /\
    path_lookup intent_paths c = Ok (Goto n) /\
    step n_intent st e = (Ok (Goto n, apply_update st (intent_update st c src)), e').
Proof.
  intros Hq. destruct (intent_eq st q e Hq) as (src & e' & Heq).
  destruct (is_code_path _ (classifier_is_code q (answer e (classifier_messages q))))
    as [n Hn].
  exists (classifier q (answer e (classifier_messages q))), src, e', n.
  split; [reflexivity|]. split; [exact Hn|].
  unfold step. unfold bind at 1. simpl run_node. rewrite Heq.
  unfold_monad. unfold next_dest, route_after_intent.
  cbn [target_lang apply_update intent_update overwrite]. now rewrite Hn.
Qed.

(** One turn of the loop: a translate step and an eval step, then [END] if
    the verdict accepts or the ceiling is reached, and the loop again
    otherwise. *)
Lemma one_cycle (limit : nat) (n : node) (c src : str) (st : TranslationState)
      (e : env W) (a m : Z) :
  path_lookup intent_paths c = Ok (Goto n) ->
  target_lang st = Some c ->
  source_text st = Some src ->
  attempts st = Some a ->
  max_attempts st = Some m ->
  exists st1 st2 e2 b,
    attempts st1 = Some (a + 1)%Z /\
    target_lang st2 = Some c /\ source_text st2 = Some src /\
    attempts st2 = Some (a + 1)%Z /\ max_attempts st2 = Some m /\
    evaluation_ok st2 = Some b /\
    run (S (S limit)) n st e =
      if b || (m <=? a + 1)%Z
      then (Ok [(n, st1); (n_eval, st2)], e2)
      else match run limit n st2 e2 with
           | (Ok rest, e3) => (Ok ((n, st1) :: (n_eval, st2) :: rest), e3)
           | (Raise x, e3) => (Raise x, e3)
           end.
Proof.
  intros Hp Hc Hs Ha Hm.
  destruct (intent_paths_translate c _ Hp) as (n0 & [= <-] & Hn).
  pose proof (step_translate_eq n st src e Hn Hs) as H1. cbv zeta in H1.
  set (e1 := after_call e _) in H1. set (st1 := apply_update st _) in H1.
  assert (Hs1 : source_text st1 = Some src) by (subst st1; simpl; now rewrite Hs).
  assert (Hc1 : target_lang st1 = Some c) by (subst st1; simpl; now rewrite Hc).
  assert (Ht1 : exists text, translation st1 = Some text)
    by (subst st1; simpl; eauto).
  destruct Ht1 as [text Ht1].
  pose proof (step_eval_eq st1 src c text e1 Hs1 Hc1 Ht1) as H2. cbv zeta in H2.
  set (e2 := after_call e1 _) in H2. set (st2 := apply_update st1 _) in H2.
  set (b := fst (verdict_of (strip (answer e1 (evaluator_messages c src text))))).
  assert (Ha1 : attempts st1 = Some (a + 1)%Z)
    by (subst st1; simpl; now rewrite Ha).
  assert (Hm1 : max_attempts st1 = Some m)
    by (subst st1; simpl; now rewrite Hm).
  assert (Ha2 : attempts st2 = Some (a + 1)%Z) by (subst st2; exact Ha1).
  assert (Hm2 : max_attempts st2 = Some m) by (subst st2; exact Hm1).
  assert (Hc2 : target_lang st2 = Some c) by (subst st2; exact Hc1).
  assert (Hs2 : source_text st2 = Some src) by (subst st2; exact Hs1).
  assert (Hb2 : evaluation_ok st2 = Some b) by reflexivity.
  exists st1, st2, e2, b. repeat (split; [assumption|]).
  rewrite run_S, H1, run_S, H2.
  destruct b eqn:Hb.
  - rewrite (next_dest_eval_accept st2 Hb2). reflexivity.
  - simpl orb. destruct (Z.leb_spec m (a + 1)) as [Hle|Hgt].
    + rewrite next_dest_eval_exhausted; [reflexivity|].
      rewrite Ha2, Hm2. exact Hle.
    + rewrite (next_dest_eval_retry st2 c n);
        [now destruct (run limit n st2 e2) as [[rest|x] e3]| | |assumption|assumption].
      * now rewrite Hb2.
      * rewrite Ha2, Hm2. exact Hgt.
Qed.

(** The loop terminates within its budget and its trace has the shape
    [cycles]: by induction on the number of retries still allowed. *)
Lemma run_loop (k : nat) :
  forall (limit : nat) (n : node) (c src : str) (st : TranslationState)
         (e : env W) (a m : Z),
    path_lookup intent_paths c = Ok (Goto n) ->
    target_lang st = Some c ->
    source_text st = Some src ->
    attempts st = Some a ->
    max_attempts st = Some m ->
    (m - a - 1 <= Z.of_nat k)%Z ->
    (2 * (k + 1) <= limit)%nat ->
    exists trace e', run limit n st e = (Ok trace, e') /\ cycles m a trace.
Proof.
  induction k as [|k IH]; intros limit n c src st e a m Hp Hc Hs Ha Hm Hk Hl;
    (destruct limit as [|[|limit]]; [lia|lia|]);
    destruct (one_cycle limit n c src st e a m Hp Hc Hs Ha Hm)
      as (st1 & st2 & e2 & b & Ha1 & Hc2 & Hs2 & Ha2 & Hm2 & Hb & Hrun);
    destruct (intent_paths_translate c _ Hp) as (n0 & [= <-] & Hn);
    rewrite Hrun; clear Hrun;
    (destruct b; simpl orb;
     [do 2 eexists; split; [reflexivity|]; apply cycles_last; auto|]);
    (destruct (Z.leb_spec m (a + 1)) as [Hle|Hgt];
     [do 2 eexists; split; [reflexivity|]; apply cycles_last; auto|]).
  - lia.
  - destruct (IH limit n c src st2 e2 (a + 1)%Z m Hp Hc2 Hs2 Ha2 Hm2)
      as (rest & e3 & Hrest & Hcyc); [lia|lia|].
    rewrite Hrest. do 2 eexists. split; [reflexivity|].
    now apply cycles_more.
Qed.


Lemma is_translate_not_eval (n : node) : is_translate n = true -> is_eval n = false.
Proof. now destruct n. Qed.

Lemma cycles_nonempty (m a : Z) (trace : list (node * TranslationState)) :
  cycles m a trace -> trace <> [].
Proof. destruct 1; discriminate. Qed.

Lemma last_skip {A : Type} (x : A) (l : list A) (d : A) :
  l <> [] -> last (x :: l) d = last l d.
Proof. destruct l; [congruence | reflexivity]. Qed.

(** What the shape [cycles] says in numbers. With [N] the Translator
    invocations of the trace: there are as many eval states; the [k]-th of
    them (from 0) has [attempts = a + k + 1]; each one before the last is a
    rejection below the ceiling and the last is an acceptance or at the
    ceiling; and [N] is at most [m - a], or 1 when that is less. *)
Lemma cycles_facts (m a : Z) (trace : list (node * TranslationState)) :
  cycles m a trace ->
  let N := translator_runs trace in
  List.length (eval_states trace) = N /\
  (1 <= N)%nat /\
  (a + Z.of_nat N <= Z.max (a + 1) m)%Z /\
  (forall d, attempts (snd (last trace d)) = Some (a + Z.of_nat N)%Z) /\
  (forall k se,
      nth_error (eval_states trace) k = Some se ->
      attempts se = Some (a + Z.of_nat (S k))%Z /\
      (S k < N -> evaluation_ok se = Some false /\ (a + Z.of_nat (S k) < m)%Z) /\
      (S k = N -> evaluation_ok se = Some true \/
                  (evaluation_ok se = Some false /\ (m <= a + Z.of_nat (S k))%Z))).
Proof.
  induction 1 as [a n st se Hn Hst Hse Hend | a n st se rest Hn Hst Hse Hrej Hlt Hrest IH];
    unfold translator_runs, eval_states in *;
    cbn [filter fst snd is_translate is_eval];
    rewrite Hn, (is_translate_not_eval n Hn);
    cbn [filter map fst snd List.length is_translate is_eval last].
  - split; [reflexivity|]. split; [lia|]. split; [lia|]. split.
    + intros _. rewrite Hse; f_equal; lia.
    + intros [|[|k]] se0 Hk; simpl in Hk; try discriminate.
      injection Hk as <-. split; [rewrite Hse; f_equal; lia|].
      split; [lia|]. intros _.
      destruct Hend as [Hok|[Hno Hle]]; [now left | right; split; [exact Hno | lia]].
  - cbv zeta in IH. destruct IH as (IHlen & IHpos & IHmax & IHlast & IHnth).
    split; [now rewrite IHlen|]. split; [lia|]. split; [lia|]. split.
    + intros d. pose proof (cycles_nonempty m (a + 1) rest Hrest) as Hne.
      assert (Hlast : last ((n, st) :: (n_eval, se) :: rest) d = last rest d).
      { rewrite last_skip by discriminate. now apply last_skip. }
      simpl in Hlast. rewrite Hlast, IHlast. f_equal. lia.
    + intros [|k] se0 Hk; simpl in Hk.
      * injection Hk as <-. split; [rewrite Hse; f_equal; lia|].
        split; [intros _; split; [exact Hrej | lia]|]. lia.
      * destruct (IHnth k se0 Hk) as (Hatt & Hbefore & Hat).
        split; [rewrite Hatt; f_equal; lia|].
        split.
        -- intros Hlt'. destruct Hbefore as [Hr Hl]; [lia|]. split; [exact Hr | lia].
        -- intros Heq. destruct Hat as [Hok|[Hno Hle]]; [lia | now left |].
           right. split; [exact Hno | lia].
Qed.

(** A session given steps enough: its run, and what the shape of the loop
    says about it. *)
Lemma session_run_at :
  forall (q : str) (m : Z) (e : env W) (limit : nat),
    (2 * Z.to_nat (Z.max 1 m) + 1 <= limit)%nat ->
    exists trace e',
      run limit n_intent (session_input q m) e = (Ok trace, e') /\
      let N := translator_runs trace in
      let final := snd (last trace (n_intent, session_input q m)) in
      app_invoke limit (session_input q m) e = (Ok final, e') /\
      List.length (eval_states trace) = N /\
      attempts final = Some (Z.of_nat N) /\
      (1 <= N)%nat /\
      (Z.of_nat N <= Z.max 1 m)%Z /\
      (1 <= m -> Z.of_nat N <= m)%Z /\
      (forall k se,
          nth_error (eval_states trace) k = Some se ->
          attempts se = Some (Z.of_nat (S k)) /\
          (S k < N -> evaluation_ok se = Some false /\ (Z.of_nat (S k) < m)%Z) /\
          (S k = N -> evaluation_ok se = Some true \/
                      (evaluation_ok se = Some false /\ (m <= Z.of_nat (S k))%Z))).
Proof.
  intros q m e limit Hlimit.
  destruct limit as [|limit]; [lia|].
  destruct (step_intent_eq (session_input q m) q e eq_refl)
    as (c & src & e1 & n & _ & Hp & Hstep).
  set (st1 := apply_update (session_input q m) (intent_update (session_input q m) c src)) in *.
  destruct (run_loop (Z.to_nat (m - 1)) limit n c src st1 e1 0%Z m Hp
              eq_refl eq_refl eq_refl eq_refl) as (rest & e2 & Hrun & Hcyc);
    [lia | lia |].
  pose proof (cycles_nonempty m 0 rest Hcyc) as Hne.
  destruct (cycles_facts m 0 rest Hcyc) as (Hlen & Hpos & Hmax & Hlast & Hnth).
  assert (Hrun0 : run (S limit) n_intent (session_input q m) e
                  = (Ok ((n_intent, st1) :: rest), e2)).
  { rewrite run_S, Hstep, Hrun. reflexivity. }
  exists ((n_intent, st1) :: rest), e2. split; [exact Hrun0|].
  cbv zeta. rewrite (last_skip _ rest _ Hne).
  change (translator_runs ((n_intent, st1) :: rest)) with (translator_runs rest).
  change (eval_states ((n_intent, st1) :: rest)) with (eval_states rest).
  split.
  { unfold app_invoke, bind, ret. rewrite Hrun0.
    now rewrite (last_skip _ rest _ Hne). }
  split; [exact Hlen|]. split; [now rewrite Hlast|]. split; [exact Hpos|].
  split; [lia|]. split; [lia|].
  intros k se Hk. destruct (Hnth k se Hk) as (Hatt & Hbefore & Hat).
  split; [exact Hatt|]. split; [exact Hbefore | exact Hat].
Qed.


Lemma run_more_fuel (limit : nat) :
  forall (n : node) (st : TranslationState) (e e' : env W)
         (trace : list (node * TranslationState)) (k : nat),
    run limit n st e = (Ok trace, e') ->
    run (limit + k) n st e = (Ok trace, e').
Proof.
  induction limit as [|limit IH]; intros n st e e' trace k Hrun; [discriminate|].
  change (S limit + k)%nat with (S (limit + k)).
  rewrite run_S in Hrun |- *.
  destruct (step n st e) as [[[[n'|] st']|x] e1]; try exact Hrun.
  destruct (run limit n' st' e1) as [[rest|x] e2] eqn:Hrest; [|discriminate].
  now rewrite (IH n' st' e1 e2 rest k Hrest).
Qed.

(** C1, as the code has it. A session (input [attempts = 0] and a ceiling
    [m]) has one outcome: the run ends with it whenever the executor allows
    [2 * max 1 m + 1] steps, and a run that ends under any budget ends
    with it. With [N] its number of Translator invocations: there are [N]
    completed translate-eval cycles and the final [attempts] is [N]; after
    the [k]-th cycle [attempts] is [k]; every cycle but the last was
    rejected with [attempts] below [m], and the last was accepted or had
    [attempts] at or over [m], so the loop stops at the first of the two;
    and [N] is at least 1 and at most [max 1 m], hence never over [m] when
    [m >= 1]. *)
Theorem session_attempts_bounded :
  forall (q : str) (m : Z) (e : env W),
    exists trace e',
      let N := translator_runs trace in
      let final := snd (last trace (n_intent, session_input q m)) in
      (forall limit,
          (2 * Z.to_nat (Z.max 1 m) + 1 <= limit)%nat ->
          run limit n_intent (session_input q m) e = (Ok trace, e') /\
          app_invoke limit (session_input q m) e = (Ok final, e')) /\
      (forall limit trace0 e0,
          run limit n_intent (session_input q m) e = (Ok trace0, e0) ->
          trace0 = trace /\ e0 = e') /\
      List.length (eval_states trace) = N /\
      attempts final = Some (Z.of_nat N) /\
      (1 <= N)%nat /\
      (Z.of_nat N <= Z.max 1 m)%Z /\
      (1 <= m -> Z.of_nat N <= m)%Z /\
      (forall k se,
          nth_error (eval_states trace) k = Some se ->
          attempts se = Some (Z.of_nat (S k)) /\
          (S k < N -> evaluation_ok se = Some false /\ (Z.of_nat (S k) < m)%Z) /\
          (S k = N -> evaluation_ok se = Some true \/
                      (evaluation_ok se = Some false /\ (m <= Z.of_nat (S k))%Z))).
Proof.
  intros q m e. set (L := (2 * Z.to_nat (Z.max 1 m) + 1)%nat).
  destruct (session_run_at q m e L (Nat.le_refl L))
    as (trace & e' & Hrun & Happ & Hfacts).
  exists trace, e'. cbv zeta in *. split; [|split; [|exact Hfacts]].
  - intros limit Hlimit.
    assert (Hmore : run limit n_intent (session_input q m) e = (Ok trace, e')).
    { replace limit with (L + (limit - L))%nat by lia. now apply run_more_fuel. }
    split; [exact Hmore|]. unfold app_invoke, bind, ret. now rewrite Hmore.
  - intros limit trace0 e0 Hrun0.
    pose proof (run_more_fuel limit _ _ _ _ _ L Hrun0) as H0.
    pose proof (run_more_fuel L _ _ _ _ _ limit Hrun) as H1.
    rewrite Nat.add_comm, H0 in H1. injection H1 as <- <-. now split.
Qed.

(** ** Routing back after a rejection *)

Lemma step_intent_inv (st st' : TranslationState) (e e' : env W) (d : dest) :
  step n_intent st e = (Ok (d, st'), e') -> exists q, query st = Some q.
Proof.
  unfold step. simpl run_node. unfold intent_node. unfold_monad.
  destruct (query st) as [q|]; [eauto | discriminate].
Qed.

Lemma next_dest_eval_goto (st : TranslationState) (c : str) (n1 n' : node) :
  next_dest n_eval st = Ok (Goto n') ->
  target_lang st = Some c ->
  path_lookup intent_paths c = Ok (Goto n1) ->
  n' = n1.
Proof.
  unfold next_dest, route_after_eval. intros Hd Hc Hp.
  destruct (get_or (evaluation_ok st) false); [discriminate|].
  destruct (get_or (max_attempts st) 3 <=? get_or (attempts st) 0)%Z; [discriminate|].
  rewrite Hc in Hd. unfold eval_paths in Hd.
  rewrite (path_lookup_app intent_paths _ c (Goto n1) Hp) in Hd. congruence.
Qed.

Lemma session_inv_step (n1 : node) (c src : str) (n n' : node)
      (st st' : TranslationState) (e e' : env W) :
  path_lookup intent_paths c = Ok (Goto n1) ->
  session_inv n1 c src (n, st, e) ->
  step n st e = (Ok (Goto n', st'), e') ->
  session_inv n1 c src (n', st', e').
Proof.
  intros Hp (Hn & Hc & Hs) Hstep.
  destruct (intent_paths_translate c _ Hp) as (n0 & [= <-] & Htr).
  destruct Hn as [-> | ->].
  - rewrite (step_translate_eq n1 st src e Htr Hs) in Hstep.
    injection Hstep as <- <- <-. simpl. rewrite Hc, Hs. auto.
  - destruct (step_eval_inv st st' e e' _ Hstep) as (src' & lang & text & Hs' & Hl & Ht).
    rewrite (step_eval_eq st src' lang text e Hs' Hl Ht) in Hstep. cbv zeta in Hstep.
    destruct (next_dest n_eval _) as [d|x] eqn:Hd; [|discriminate].
    injection Hstep as -> <- <-.
    split; [left; apply (next_dest_eval_goto _ c n1 n' Hd); [exact Hc | exact Hp]|].
    split; [exact Hc | exact Hs].
Qed.

Lemma session_inv_reaches (n1 : node) (c src : str) (cfg cfg' : config) :
  path_lookup intent_paths c = Ok (Goto n1) ->
  reaches cfg cfg' ->
  session_inv n1 c src cfg ->
  session_inv n1 c src cfg'.
Proof.
  intros Hp Hreach. induction Hreach as [cfg | n st e n' st' e' cfg Hstep Hreach IH];
    intros Hinv; [exact Hinv|].
  apply IH. exact (session_inv_step n1 c src n n' st st' e e' Hp Hinv Hstep).
Qed.

(** C6. In a session whose intent step chose the translate node [n1],
    every eval step that rejects with attempts left leads back to [n1], the
    node of the code the intent step set ([en], [ja] or [fr], with the label
    English, Japanese or French). The feedback the state then holds is that
    of this very verdict, read off the model's answer to the Evaluator's
    call of this step: the stripped feedback of the object [json.loads]
    returned, or the diagnostic with the response when it raised or
    returned no object. The call the Translator then makes is built from
    that feedback, stripped: the revise prompt, which contains it and is
    not the first-pass prompt, or the first-pass prompt if the feedback is
    blank. *)
Theorem retry_returns_with_latest_feedback :
  forall (st0 s1 se se' : TranslationState) (e0 e1 ee ee' : env W)
         (n1 : node) (d : dest),
    step n_intent st0 e0 = (Ok (Goto n1, s1), e1) ->
    reaches (n1, s1, e1) (n_eval, se, ee) ->
    step n_eval se ee = (Ok (d, se'), ee') ->
    get_or (evaluation_ok se') false = false ->
    (get_or (attempts se') 0 < get_or (max_attempts se') 3)%Z ->
    is_translate n1 = true /\
    d = Goto n1 /\
    target_lang se' = target_lang s1 /\
    exists src lang label text,
      source_text se = Some src /\ target_lang se = Some lang /\
      translation se = Some text /\
      In (lang, label, n1)
         [ (lit "en", lit "English", n_translate_en);
           (lit "ja", lit "Japanese", n_translate_ja);
           (lit "fr", lit "French", n_translate_fr) ] /\
      let newline := [10%N] in
      let quote := [34%N] in
      let asked :=
        [ {| role := lit "system";
             content := lit "You are a strict translation evaluator. Respond with valid JSON only." |};
          {| role := lit "user";
             content :=
               lit "Target language: " ++ lang ++ newline ++ newline
               ++ lit "Source:" ++ newline ++ src ++ newline ++ newline
               ++ lit "Translation:" ++ newline ++ text ++ newline ++ newline
               ++ lit "Return JSON: {" ++ quote ++ lit "ok" ++ quote ++ lit ": boolean, "
               ++ quote ++ lit "feedback" ++ quote ++ lit ": string}. "
               ++ lit "If ok is false, feedback must be actionable." |} ] in
      let resp := strip (answer ee asked) in
      let feedback :=
        match json_loads resp with
        | Some (PDict data) => strip (py_str (dict_get data (lit "feedback") (PStr [])))
        | _ => lit "Evaluator output was not valid JSON: " ++ resp
        end in
      ee' = after_call ee asked /\
      evaluation_feedback se' = Some feedback /\
      let opening := lit "Text:" ++ newline ++ src ++ newline ++ newline
                     ++ lit "Target language: " ++ label ++ newline ++ newline in
      let revision := lit "Revise using this feedback:" ++ newline
                      ++ strip feedback ++ newline ++ newline in
      let closing := lit "Output only the translation." in
      let prompt :=
        match strip feedback with
        | [] => opening ++ closing
        | _ :: _ => opening ++ revision ++ closing
        end in
      (strip feedback <> [] ->
         contains (strip feedback) prompt = true /\ prompt <> opening ++ closing) /\
      exists upd,
        run_node n1 se' ee' =
          (Ok upd,
           after_call ee'
             [ {| role := lit "system"; content := lit "You are a professional translator." |};
               {| role := lit "user"; content := prompt |} ]).
Proof.
  intros st0 s1 se se' e0 e1 ee ee' n1 d Hintent Hreach Heval Hrej Hleft.
  destruct (step_intent_inv st0 s1 e0 e1 _ Hintent) as [q Hq].
  destruct (step_intent_eq st0 q e0 Hq) as (c & src & e1' & n & _ & Hp & Hstep).
  rewrite Hstep in Hintent. injection Hintent as -> <- <-.
  destruct (intent_paths_translate c _ Hp) as (n0 & [= <-] & Htr).
  assert (Hinv : session_inv n1 c src (n_eval, se, ee)).
  { apply (session_inv_reaches n1 c src _ _ Hp Hreach).
    split; [now left|]. split; reflexivity. }
  destruct Hinv as (_ & Hc & Hs).
  destruct (step_eval_inv se se' ee ee' d Heval) as (src' & lang & text & Hs' & Hl & Ht).
  assert (src' = src) by congruence. assert (lang = c) by congruence. subst src' lang.
  rewrite (step_eval_eq se src c text ee Hs Hc Ht) in Heval. cbv zeta in Heval.
  set (v := verdict_of (strip (answer ee (evaluator_messages c src text)))) in *.
  destruct (next_dest n_eval _) as [d'|x] eqn:Hd; [|discriminate].
  injection Heval as -> <- <-.
  set (se' := apply_update se (eval_update v)) in *.
  assert (Hc' : target_lang se' = Some c) by exact Hc.
  assert (Hs2 : source_text se' = Some src) by exact Hs.
  rewrite (next_dest_eval_retry se' c n1 Hrej Hleft Hc' Hp) in Hd.
  injection Hd as <-.
  split; [exact Htr|]. split; [reflexivity|]. split; [exact Hc'|].
  exists src, c, (label_of n1), text.
  split; [exact Hs|]. split; [exact Hc|]. split; [exact Ht|].
  split; [exact (intent_paths_cases c n1 Hp)|].
  intros newline quote asked resp feedback.
  assert (Hasked : evaluator_messages c src text = asked) by apply evaluator_call.
  assert (Hfb : snd v = feedback).
  { unfold v. rewrite verdict_feedback, Hasked. reflexivity. }
  split; [now rewrite Hasked|].
  split; [simpl; now rewrite Hfb|].
  intros opening revision closing prompt.
  split.
  - intros Hne. unfold prompt. destruct (strip feedback) as [|k t] eqn:E; [congruence|].
    split.
    + apply contains_app_r. unfold revision. repeat rewrite <- app_assoc.
      do 2 apply contains_app_r. apply contains_prefix.
    + apply insert_differs. unfold revision. discriminate.
  - assert (Hcall :
      translator_messages (translate_content src (label_of n1) (strip feedback)) =
        [ {| role := lit "system"; content := lit "You are a professional translator." |};
          {| role := lit "user"; content := prompt |} ]).
    { rewrite translator_call. unfold prompt. destruct (strip feedback); reflexivity. }
    eexists. rewrite (run_translate_node n1 se' Htr).
    rewrite (translate_eq se' (label_of n1) src _ Hs2). cbv zeta.
    change (get_or (evaluation_feedback se') []) with (snd v).
    rewrite Hfb, Hcall. reflexivity.
Qed.


(** ** Stripped strings *)

Lemma lstrip_idem (s : str) : lstrip (lstrip s) = lstrip s.
Proof.
  destruct (lstrip_blank_or_head s) as [-> | (c & t & -> & Hc)]; [reflexivity|].
  simpl. now rewrite Hc.
Qed.

Lemma rstrip_idem (s : str) : rstrip (rstrip s) = rstrip s.
Proof. unfold rstrip. now rewrite rev_involutive, lstrip_idem. Qed.

Lemma rstrip_cons_nonspace (c : N) (t : str) :
  is_space c = false -> rstrip (c :: t) = c :: rstrip t.
Proof.
  intros Hc. unfold rstrip. simpl rev.
  destruct (lstrip (rev t)) as [|d u] eqn:Ht.
  - apply lstrip_nil_iff in Ht. rewrite (lstrip_app_blank _ _ Ht).
    simpl. now rewrite Hc.
  - rewrite lstrip_app_nonblank by congruence. rewrite Ht.
    now rewrite rev_app_distr.
Qed.

Lemma rstrip_app_nonblank (a b : str) :
  rstrip b <> [] -> rstrip (a ++ b) = a ++ rstrip b.
Proof.
  intros Hb. unfold rstrip in *. rewrite rev_app_distr.
  rewrite lstrip_app_nonblank.
  - now rewrite rev_app_distr, rev_involutive.
  - intros Hnil. apply Hb. now rewrite Hnil.
Qed.

(** [strip] leaves nothing to strip. *)
Lemma strip_stripped (s : str) : stripped (strip s).
Proof.
  unfold stripped, strip.
  destruct (lstrip_blank_or_head s) as [-> | (c & t & -> & Hc)]; [reflexivity|].
  rewrite (rstrip_cons_nonspace c t Hc). simpl. rewrite Hc.
  rewrite (rstrip_cons_nonspace c _ Hc). now rewrite rstrip_idem.
Qed.

Lemma stripped_rstrip (s : str) : stripped s -> rstrip s = s.
Proof.
  unfold stripped, strip. intros Hs. rewrite <- Hs at 1. now rewrite rstrip_idem.
Qed.

(** ** Sessions as chains of steps *)

Lemma run_steps_trace (limit : nat) :
  forall (n : node) (st : TranslationState) (e e' : env W)
         (trace : list (node * TranslationState)),
    run limit n st e = (Ok trace, e') -> steps_trace n st e trace e'.
Proof.
  induction limit as [|limit IH]; intros n st e e' trace Hrun; [discriminate|].
  rewrite run_S in Hrun.
  destruct (step n st e) as [[[[n'|] st']|x] e1] eqn:Hstep; try discriminate.
  - destruct (run limit n' st' e1) as [[rest|x] e2] eqn:Hrest; [|discriminate].
    injection Hrun as <- <-.
    eapply steps_more; [exact Hstep | now apply IH].
  - injection Hrun as <- <-. now apply steps_end.
Qed.

Lemma step_translate_inv (n : node) (st st' : TranslationState) (e e' : env W)
      (d : dest) :
  is_translate n = true ->
  step n st e = (Ok (d, st'), e') ->
  exists src, source_text st = Some src.
Proof.
  intros Hn. unfold step. rewrite (run_translate_node n st Hn).
  unfold _translate. unfold_monad.
  destruct (source_text st) as [src|]; [eauto | discriminate].
Qed.

Lemma eval_paths_goto (key : str) (n : node) :
  path_lookup eval_paths key = Ok (Goto n) -> is_translate n = true.
Proof.
  unfold eval_paths, intent_paths. simpl.
  destruct (str_eqb code_en key); [intros [= <-]; reflexivity|].
  destruct (str_eqb code_ja key); [intros [= <-]; reflexivity|].
  destruct (str_eqb code_fr key); [intros [= <-]; reflexivity|].
  destruct (str_eqb (lit "end") key); discriminate.
Qed.

(** After the intent step the run stays among the translate nodes and [eval]. *)
Lemma step_stays_in_loop (n n' : node) (st st' : TranslationState) (e e' : env W) :
  n <> n_intent ->
  step n st e = (Ok (Goto n', st'), e') ->
  n' <> n_intent.
Proof.
  intros Hn Hstep.
  destruct (is_translate n) eqn:Htr.
  - destruct (step_translate_inv n st st' e e' _ Htr Hstep) as [src Hs].
    rewrite (step_translate_eq n st src e Htr Hs) in Hstep.
    injection Hstep as <- _ _. discriminate.
  - assert (n = n_eval) by (destruct n; try discriminate; congruence). subst n.
    destruct (step_eval_inv st st' e e' _ Hstep) as (src & lang & text & Hs & Hl & Ht).
    rewrite (step_eval_eq st src lang text e Hs Hl Ht) in Hstep. cbv zeta in Hstep.
    destruct (next_dest n_eval _) as [d|x] eqn:Hd; [|discriminate].
    injection Hstep as -> _ _.
    unfold next_dest in Hd. destruct (route_after_eval _) as [key|x]; [|discriminate].
    apply eval_paths_goto in Hd. intros ->. discriminate.
Qed.

(** A translate or eval step that succeeds makes exactly one call. *)
Lemma step_one_call (n : node) (st st' : TranslationState) (e e' : env W) (d : dest) :
  n <> n_intent ->
  step n st e = (Ok (d, st'), e') ->
  exists msgs, calls e' = calls e ++ [msgs].
Proof.
  intros Hn Hstep.
  destruct (is_translate n) eqn:Htr.
  - destruct (step_translate_inv n st st' e e' _ Htr Hstep) as [src Hs].
    rewrite (step_translate_eq n st src e Htr Hs) in Hstep.
    injection Hstep as _ _ <-. eexists. reflexivity.
  - assert (n = n_eval) by (destruct n; try discriminate; congruence). subst n.
    destruct (step_eval_inv st st' e e' _ Hstep) as (src & lang & text & Hs & Hl & Ht).
    rewrite (step_eval_eq st src lang text e Hs Hl Ht) in Hstep. cbv zeta in Hstep.
    destruct (next_dest n_eval _) as [d0|x]; [|discriminate].
    injection Hstep as _ _ <-. eexists. reflexivity.
Qed.

Lemma steps_trace_calls (n : node) (st : TranslationState) (e e' : env W)
      (trace : list (node * TranslationState)) :
  steps_trace n st e trace e' ->
  n <> n_intent ->
  List.length (calls e') = (List.length (calls e) + List.length trace)%nat.
Proof.
  induction 1 as [n st e st' e' Hstep | n st e n' st' e1 rest e' Hstep Hrest IH];
    intros Hn.
  - destruct (step_one_call n st st' e e' _ Hn Hstep) as [msgs ->].
    rewrite length_app. simpl. lia.
  - destruct (step_one_call n st st' e e1 _ Hn Hstep) as [msgs Hc].
    rewrite IH by exact (step_stays_in_loop n n' st st' e e1 Hn Hstep).
    rewrite Hc, length_app. simpl. lia.
Qed.

Lemma cycles_length (m a : Z) (trace : list (node * TranslationState)) :
  cycles m a trace -> List.length trace = (2 * translator_runs trace)%nat.
Proof.
  induction 1 as [a n st se Hn Hst Hse Hend | a n st se rest Hn Hst Hse Hrej Hlt Hrest IH];
    unfold translator_runs in *; cbn [filter fst snd is_translate List.length];
    rewrite Hn; cbn [filter fst snd is_translate List.length]; lia.
Qed.


(** ** What a session keeps *)

(** The intent step in full: the code, the source text and the calls made. *)
Lemma step_intent_full (st : TranslationState) (q : str) (e : env W) :
  query st = Some q ->
  exists c n e1,
    c = classifier q (answer e (classifier_messages q)) /\
    path_lookup intent_paths c = Ok (Goto n) /\
    (e1 = e /\ _detect_target_lang_rule q <> None \/
     e1 = after_call e (classifier_messages q) /\ _detect_target_lang_rule q = None) /\
    step n_intent st e =
      (Ok (Goto n,
           apply_update st
             (intent_update st c (strip (answer e1 (extractor_messages q))))),
       after_call e1 (extractor_messages q)).
Proof.
  intros Hq.
  destruct (is_code_path _ (classifier_is_code q (answer e (classifier_messages q))))
    as [n Hn].
  exists (classifier q (answer e (classifier_messages q))), n.
  destruct (first_match q) as [l|] eqn:Hl.
  - exists e. split; [reflexivity|]. split; [exact Hn|].
    split; [left; split; [reflexivity|]; rewrite detect_first_match, Hl; discriminate|].
    unfold step. unfold bind at 1. simpl run_node.
    rewrite (intent_eq_rule st q l e Hq Hl).
    unfold_monad. unfold next_dest, route_after_intent.
    unfold classifier in *. rewrite Hl in *.
    cbn [target_lang apply_update intent_update overwrite]. now rewrite Hn.
  - exists (after_call e (classifier_messages q)). split; [reflexivity|].
    split; [exact Hn|].
    split; [right; split; [reflexivity|]; now rewrite detect_first_match, Hl|].
    unfold step. unfold bind at 1. simpl run_node.
    rewrite (intent_eq_fallback st q e Hq Hl). cbv zeta.
    unfold_monad. unfold next_dest, route_after_intent.
    unfold classifier in *. rewrite Hl in *. cbv zeta in Hn.
    cbn [target_lang apply_update intent_update overwrite]. now rewrite Hn.
Qed.

(** A translate or eval step takes a state ready for the loop to a state of
    the loop, which is ready for the node that follows. *)
Lemma loop_ready_step (q : option str) (src c : str) (m : Z) (n1 n : node)
      (st st' : TranslationState) (e e' : env W) (d : dest) :
  path_lookup intent_paths c = Ok (Goto n1) ->
  loop_ready q src c m n1 n st ->
  (n = n_eval -> exists t, translation st = Some t /\ stripped t) ->
  step n st e = (Ok (d, st'), e') ->
  loop_state q src c m n1 n st' /\
  (forall n', d = Goto n' ->
     loop_ready q src c m n1 n' st' /\
     exists t, translation st' = Some t /\ stripped t).
Proof.
  intros Hp (Hn & Hq & Hs & Hc & Hm & (a & Ha) & (b & Hb) & (fb & Hfb)) Htr Hstep.
  destruct (intent_paths_translate c _ Hp) as (n0 & [= <-] & Htr1).
  assert (Hcases : is_translate n = true \/ n = n_eval)
    by (destruct Hn as [-> | ->]; auto).
  destruct Hcases as [Hnt | ->].
  - rewrite (step_translate_eq n st src e Hnt Hs) in Hstep. cbv zeta in Hstep.
    set (text := strip (answer e _)) in Hstep.
    injection Hstep as <- <- <-.
    assert (Hready : forall n', (n' = n1 \/ n' = n_eval) ->
              loop_ready q src c m n1 n'
                (apply_update st (translate_update text (get_or (attempts st) 0 + 1)%Z))).
    { intros n' Hn'. unfold loop_ready. simpl.
      rewrite Hq, Hs, Hc, Hm, Hb, Hfb. repeat split; eauto. }
    assert (Htext : exists t,
              translation
                (apply_update st (translate_update text (get_or (attempts st) 0 + 1)%Z))
              = Some t /\ stripped t).
    { exists text. split; [reflexivity | apply strip_stripped]. }
    split; [split; [apply Hready; exact Hn | exact Htext]|].
    intros n' [= <-]. split; [apply Hready; now right | exact Htext].
  - destruct (Htr eq_refl) as (t & Ht & Hst).
    rewrite (step_eval_eq st src c t e Hs Hc Ht) in Hstep. cbv zeta in Hstep.
    set (v := verdict_of (strip (answer e (evaluator_messages c src t)))) in *.
    destruct (next_dest n_eval _) as [d'|x] eqn:Hd; [|discriminate].
    injection Hstep as -> <- <-.
    assert (Hready : forall n', (n' = n1 \/ n' = n_eval) ->
              loop_ready q src c m n1 n' (apply_update st (eval_update v))).
    { intros n' Hn'. unfold loop_ready. simpl.
      rewrite Hq, Hs, Hc, Hm, Ha. repeat split; eauto. }
    assert (Htext : exists t0,
              translation (apply_update st (eval_update v)) = Some t0 /\ stripped t0).
    { exists t. split; [simpl; exact Ht | exact Hst]. }
    split; [split; [apply Hready; now right | exact Htext]|].
    intros n' ->. split; [|exact Htext]. apply Hready. left.
    exact (next_dest_eval_goto _ c n1 n' Hd Hc Hp).
Qed.

Lemma loop_state_steps (q : option str) (src c : str) (m : Z) (n1 : node) :
  path_lookup intent_paths c = Ok (Goto n1) ->
  forall (n : node) (st : TranslationState) (e e' : env W)
         (trace : list (node * TranslationState)),
    steps_trace n st e trace e' ->
    loop_ready q src c m n1 n st ->
    (n = n_eval -> exists t, translation st = Some t /\ stripped t) ->
    Forall (fun p => loop_state q src c m n1 (fst p) (snd p)) trace.
Proof.
  intros Hp n st e e' trace Hsteps.
  induction Hsteps as [n st e st' e' Hstep | n st e n' st' e1 rest e' Hstep Hrest IH];
    intros Hready Htr;
    destruct (loop_ready_step q src c m n1 n st st' _ _ _ Hp Hready Htr Hstep)
      as [Hstate Hnext].
  - constructor; [exact Hstate | constructor].
  - destruct (Hnext n' eq_refl) as [Hready' Htext].
    constructor; [exact Hstate | apply IH; [exact Hready' | intros _; exact Htext]].
Qed.


Lemma steps_trace_nonempty (n : node) (st : TranslationState) (e e' : env W)
      (trace : list (node * TranslationState)) :
  steps_trace n st e trace e' -> trace <> [].
Proof. destruct 1; discriminate. Qed.

Lemma Forall_last_elt {A : Type} (P : A -> Prop) (l : list A) (d : A) :
  Forall P l -> l <> [] -> P (last l d).
Proof.
  induction 1 as [|x l Hx Hl IH]; [congruence|]. intros _.
  destruct l as [|y l]; [exact Hx|]. apply IH. discriminate.
Qed.

(** A run that ends, taken apart: the intent step, then a chain of steps
    from the translate node it chose. *)
Lemma session_trace_inv (st0 : TranslationState) (q : str) (e e' : env W)
      (limit : nat) (trace : list (node * TranslationState)) :
  query st0 = Some q ->
  run limit n_intent st0 e = (Ok trace, e') ->
  exists c n1 e1 rest,
    c = classifier q (answer e (classifier_messages q)) /\
    path_lookup intent_paths c = Ok (Goto n1) /\
    (e1 = e /\ _detect_target_lang_rule q <> None \/
     e1 = after_call e (classifier_messages q) /\ _detect_target_lang_rule q = None) /\
    trace =
      (n_intent,
       apply_update st0
         (intent_update st0 c (strip (answer e1 (extractor_messages q))))) :: rest /\
    steps_trace n1
      (apply_update st0 (intent_update st0 c (strip (answer e1 (extractor_messages q)))))
      (after_call e1 (extractor_messages q)) rest e'.
Proof.
  intros Hq Hrun. destruct limit as [|limit]; [discriminate|].
  destruct (step_intent_full st0 q e Hq) as (c & n1 & e1 & Hc & Hp & He1 & Hstep).
  rewrite run_S, Hstep in Hrun.
  destruct (run limit n1 _ _) as [[rest|x] e2] eqn:Hrest; [|discriminate].
  injection Hrun as <- <-.
  exists c, n1, e1, rest. repeat (split; [assumption|]).
  split; [reflexivity|]. exact (run_steps_trace limit _ _ _ _ _ Hrest).
Qed.

(** The state the intent step leaves is ready for the loop. *)
Lemma intent_state_ready (st0 : TranslationState) (q c src : str) (n1 : node) :
  query st0 = Some q ->
  loop_ready (Some q) src c (get_or (max_attempts st0) 3%Z) n1 n1
             (apply_update st0 (intent_update st0 c src)).
Proof.
  intros Hq. unfold loop_ready. simpl. rewrite Hq. repeat split; eauto.
Qed.

Lemma translate_is_not_eval (n : node) : is_translate n = true -> n <> n_eval.
Proof. intros Hn ->. discriminate. Qed.

(** The states of a run that ends: those of the loop, all of them. *)
Lemma session_loop_states (st0 : TranslationState) (q : str) (e e' : env W)
      (limit : nat) (trace : list (node * TranslationState)) :
  query st0 = Some q ->
  run limit n_intent st0 e = (Ok trace, e') ->
  exists s1 rest c src n1,
    trace = (n_intent, s1) :: rest /\ rest <> [] /\
    is_code c = true /\
    path_lookup intent_paths c = Ok (Goto n1) /\
    is_translate n1 = true /\
    stripped src /\
    loop_ready (Some q) src c (get_or (max_attempts st0) 3%Z) n1 n1 s1 /\
    Forall (fun p => loop_state (Some q) src c (get_or (max_attempts st0) 3%Z) n1
                                (fst p) (snd p)) rest.
Proof.
  intros Hq Hrun.
  destruct (session_trace_inv st0 q e e' limit trace Hq Hrun)
    as (c & n1 & e1 & rest & Hc & Hp & _ & -> & Hsteps).
  destruct (intent_paths_translate c _ Hp) as (n0 & [= <-] & Htr).
  pose proof (intent_state_ready st0 q c
                (strip (answer e1 (extractor_messages q))) n1 Hq) as Hready.
  do 2 eexists. exists c, (strip (answer e1 (extractor_messages q))), n1.
  split; [reflexivity|].
  split; [exact (steps_trace_nonempty _ _ _ _ _ Hsteps)|].
  split; [rewrite Hc; apply classifier_is_code|].
  split; [exact Hp|]. split; [exact Htr|]. split; [apply strip_stripped|].
  split; [exact Hready|].
  apply (loop_state_steps (Some q) _ c _ n1 Hp _ _ _ _ _ Hsteps Hready).
  intros Heq. destruct (translate_is_not_eval n1 Htr Heq).
Qed.

(** X4. What a session keeps. In a run that ends, the intent node runs
    once, first; every later step is at [eval] or at the one translate node
    of the code the intent step chose; and every state of the run has the
    query of the input, the source text (stripped) and the code set by the
    intent step, and the ceiling of the input (3 if it gave none). From the
    first translate step on there is a translation, stripped. *)
Theorem session_states_keep_intent :
  forall (st0 : TranslationState) (q : str) (e e' : env W) (limit : nat)
         (trace : list (node * TranslationState)),
    query st0 = Some q ->
    run limit n_intent st0 e = (Ok trace, e') ->
    exists s1 rest c src n1,
      trace = (n_intent, s1) :: rest /\
      (c = code_en \/ c = code_ja \/ c = code_fr) /\
      path_lookup intent_paths c = Ok (Goto n1) /\
      stripped src /\
      loop_ready (Some q) src c (get_or (max_attempts st0) 3%Z) n1 n1 s1 /\
      Forall (fun p => loop_state (Some q) src c (get_or (max_attempts st0) 3%Z) n1
                                  (fst p) (snd p)) rest.
Proof.
  intros st0 q e e' limit trace Hq Hrun.
  destruct (session_loop_states st0 q e e' limit trace Hq Hrun)
    as (s1 & rest & c & src & n1 & Ht & _ & Hc & Hp & _ & Hsrc & Hready & Hall).
  exists s1, rest, c, src, n1. split; [exact Ht|].
  split; [now apply is_code_cases|]. split; [exact Hp|].
  split; [exact Hsrc|]. split; [exact Hready | exact Hall].
Qed.

(** X7. The result of [app.invoke], when it returns one, has every key of
    the state: the query as given, a source text and a translation (both
    stripped), one of the three codes, a verdict with its feedback, a count
    and the ceiling of the input (3 if it gave none). *)
Theorem app_invoke_result_complete :
  forall (st0 final : TranslationState) (q : str) (e e' : env W) (limit : nat),
    query st0 = Some q ->
    app_invoke limit st0 e = (Ok final, e') ->
    query final = Some q /\
    max_attempts final = Some (get_or (max_attempts st0) 3%Z) /\
    exists src c t b fb a,
      source_text final = Some src /\ stripped src /\
      target_lang final = Some c /\ (c = code_en \/ c = code_ja \/ c = code_fr) /\
      translation final = Some t /\ stripped t /\
      evaluation_ok final = Some b /\
      evaluation_feedback final = Some fb /\
      attempts final = Some a.
Proof.
  intros st0 final q e e' limit Hq Happ.
  unfold app_invoke, bind, ret in Happ.
  destruct (run limit n_intent st0 e) as [[trace|x] e1] eqn:Hrun; [|discriminate].
  injection Happ as <- <-.
  destruct (session_loop_states st0 q e e1 limit trace Hq Hrun)
    as (s1 & rest & c & src & n1 & -> & Hne & Hc & _ & _ & Hsrc & _ & Hall).
  rewrite (last_skip _ rest _ Hne).
  pose proof (Forall_last_elt _ rest (n_intent, st0) Hall Hne) as Hlast.
  destruct Hlast as ((_ & Hq' & Hs & Hl & Hm & (a & Ha) & (b & Hb) & (fb & Hfb))
                     & (t & Ht & Hst)).
  split; [exact Hq'|]. split; [exact Hm|].
  exists src, c, t, b, fb, a.
  repeat (split; [first [assumption | now apply is_code_cases]|]). exact Ha.
Qed.


(** ** Sessions from any input *)

(** The run of any input that has a query, given steps enough: the intent
    step, then the loop, whose trace has the shape [cycles]. *)
Lemma session_run_general (st0 : TranslationState) (q : str) (e : env W)
      (limit : nat) :
  query st0 = Some q ->
  (2 * Z.to_nat (Z.max 1 (get_or (max_attempts st0) 3%Z - get_or (attempts st0) 0%Z)%Z) + 1
   <= limit)%nat ->
  exists n1 e1 s1 rest e',
    n1 <> n_intent /\
    (e1 = e /\ _detect_target_lang_rule q <> None \/
     e1 = after_call e (classifier_messages q) /\ _detect_target_lang_rule q = None) /\
    run limit n_intent st0 e = (Ok ((n_intent, s1) :: rest), e') /\
    cycles (get_or (max_attempts st0) 3%Z) (get_or (attempts st0) 0%Z) rest /\
    steps_trace n1 s1 (after_call e1 (extractor_messages q)) rest e'.
Proof.
  intros Hq Hlimit. destruct limit as [|limit]; [lia|].
  destruct (step_intent_full st0 q e Hq) as (c & n1 & e1 & _ & Hp & He1 & Hstep).
  set (s1 := apply_update st0 _) in Hstep.
  destruct (run_loop
              (Z.to_nat (get_or (max_attempts st0) 3%Z - get_or (attempts st0) 0%Z - 1)%Z)
              limit n1 c (strip (answer e1 (extractor_messages q))) s1
              (after_call e1 (extractor_messages q))
              (get_or (attempts st0) 0%Z) (get_or (max_attempts st0) 3%Z)
              Hp eq_refl eq_refl eq_refl eq_refl)
    as (rest & e' & Hrun & Hcyc); [lia | lia |].
  destruct (intent_paths_translate c _ Hp) as (n0 & [= <-] & Htr).
  exists n1, e1, s1, rest, e'.
  split; [intros ->; discriminate|]. split; [exact He1|].
  split; [rewrite run_S, Hstep, Hrun; reflexivity|].
  split; [exact Hcyc | exact (run_steps_trace limit _ _ _ _ _ Hrun)].
Qed.

(** X5. Any input with a query, whatever count and ceiling it brings
    ([attempts] counts as 0 and [max_attempts] as 3 when absent): given
    steps enough the run ends; the Translator runs at least once and at
    most [max_attempts - attempts] times (once, when the count is already at
    the ceiling or within one of it), with as many verdicts, and the final
    count is the one brought plus the number of Translator runs. *)
Theorem session_bound_any_input :
  forall (st0 : TranslationState) (q : str) (e : env W) (limit : nat),
    query st0 = Some q ->
    let a := get_or (attempts st0) 0%Z in
    let m := get_or (max_attempts st0) 3%Z in
    (2 * Z.to_nat (Z.max 1 (m - a)%Z) + 1 <= limit)%nat ->
    exists trace e',
      run limit n_intent st0 e = (Ok trace, e') /\
      let N := translator_runs trace in
      (1 <= N)%nat /\
      (Z.of_nat N <= Z.max 1 (m - a))%Z /\
      (m <= a + 1 -> N = 1%nat)%Z /\
      List.length (eval_states trace) = N /\
      attempts (snd (last trace (n_intent, st0))) = Some (a + Z.of_nat N)%Z.
Proof.
  intros st0 q e limit Hq a m Hlimit.
  destruct (session_run_general st0 q e limit Hq Hlimit)
    as (n1 & e1 & s1 & rest & e' & _ & _ & Hrun & Hcyc & _).
  fold a m in Hcyc.
  pose proof (cycles_nonempty m a rest Hcyc) as Hne.
  destruct (cycles_facts m a rest Hcyc) as (Hlen & Hpos & Hmax & Hlast & _).
  exists ((n_intent, s1) :: rest), e'. split; [exact Hrun|].
  cbv zeta. rewrite (last_skip _ rest _ Hne).
  change (translator_runs ((n_intent, s1) :: rest)) with (translator_runs rest).
  change (eval_states ((n_intent, s1) :: rest)) with (eval_states rest).
  split; [exact Hpos|]. split; [lia|]. split; [lia|].
  split; [exact Hlen | apply Hlast].
Qed.

(** X6. The model calls of a session, counted: one for the extractor, one
    more for the classifier when no keyword rule matches, and two (the
    translation and its evaluation) for each Translator run; so never more
    than [2 + 2 * max 1 (max_attempts - attempts)]. *)
Theorem session_model_calls :
  forall (st0 : TranslationState) (q : str) (e : env W) (limit : nat),
    query st0 = Some q ->
    let a := get_or (attempts st0) 0%Z in
    let m := get_or (max_attempts st0) 3%Z in
    (2 * Z.to_nat (Z.max 1 (m - a)%Z) + 1 <= limit)%nat ->
    exists trace e',
      run limit n_intent st0 e = (Ok trace, e') /\
      List.length (calls e') =
        (List.length (calls e)
         + match _detect_target_lang_rule q with Some _ => 1 | None => 2 end
         + 2 * translator_runs trace)%nat /\
      (List.length (calls e') <=
         List.length (calls e) + 2 + 2 * Z.to_nat (Z.max 1 (m - a)%Z))%nat.
Proof.
  intros st0 q e limit Hq a m Hlimit.
  destruct (session_run_general st0 q e limit Hq Hlimit)
    as (n1 & e1 & s1 & rest & e' & Hn1 & He1 & Hrun & Hcyc & Hsteps).
  fold a m in Hcyc.
  destruct (cycles_facts m a rest Hcyc) as (_ & _ & Hmax & _ & _).
  pose proof (cycles_length m a rest Hcyc) as Hlen.
  pose proof (steps_trace_calls n1 s1 _ e' rest Hsteps Hn1) as Hcalls.
  exists ((n_intent, s1) :: rest), e'. split; [exact Hrun|].
  change (translator_runs ((n_intent, s1) :: rest)) with (translator_runs rest).
  assert (Hintent :
            List.length (calls (after_call e1 (extractor_messages q))) =
            (List.length (calls e)
             + match _detect_target_lang_rule q with Some _ => 1 | None => 2 end)%nat).
  { simpl. rewrite length_app. simpl.
    destruct He1 as [[-> Hrule] | [-> Hrule]].
    - destruct (_detect_target_lang_rule q); [lia | congruence].
    - rewrite Hrule. simpl. rewrite length_app. simpl. lia. }
  rewrite Hcalls, Hintent, Hlen. split; [lia|].
  destruct (_detect_target_lang_rule q); lia.
Qed.

(** X8. [main], whatever line is typed and whatever the model answers,
    under a recursion limit of 8 or more: the session it runs, on the
    stripped line under the ceiling 3, returns, after one to three
    Translator runs and at most 8 model calls. [main] then prints the
    final translation, and after it the final feedback unless the final
    verdict accepts. It ends in an exception only if standard output
    refuses one of these lines, in a [UnicodeEncodeError], with the line
    before it, if any, printed. *)
Theorem main_prints_translation_and_feedback :
  forall (typed : str) (e : env W) (recursion_limit : nat),
    (8 <= recursion_limit)%nat ->
    exists final e' t b fb a,
      invoke_under recursion_limit (session_input (strip typed) 3%Z) e
        = (Ok final, e') /\
      translation final = Some t /\
      evaluation_ok final = Some b /\
      evaluation_feedback final = Some fb /\
      attempts final = Some a /\ (1 <= a <= 3)%Z /\
      (List.length (calls e') <= List.length (calls e) + 8)%nat /\
      main recursion_limit typed e =
        (if negb (stdout_accepts t)
         then {| printed := []; raised := Some UnicodeEncodeError |}
         else if b then {| printed := [t]; raised := None |}
         else if negb (stdout_accepts fb)
         then {| printed := [t]; raised := Some UnicodeEncodeError |}
         else {| printed := [t; fb]; raised := None |},
         e').
Proof.
  intros typed e limit Hlimit.
  set (st0 := session_input (strip typed) 3%Z).
  destruct (session_run_general st0 (strip typed) e limit eq_refl)
    as (n1 & e1 & s1 & rest & e' & Hn1 & He1 & Hrun & Hcyc & Hsteps);
    [simpl; lia|].
  change (get_or (max_attempts st0) 3%Z) with 3%Z in Hcyc.
  change (get_or (attempts st0) 0%Z) with 0%Z in Hcyc.
  pose proof (cycles_nonempty 3%Z 0%Z rest Hcyc) as Hne.
  destruct (cycles_facts 3%Z 0%Z rest Hcyc) as (_ & Hpos & Hmax & Hlast & _).
  pose proof (cycles_length 3%Z 0%Z rest Hcyc) as Hlen.
  pose proof (steps_trace_calls n1 s1 _ e' rest Hsteps Hn1) as Hcalls.
  destruct (session_loop_states st0 (strip typed) e e' limit _ eq_refl Hrun)
    as (s1' & rest' & c & src & n1' & Heq & _ & _ & _ & _ & _ & _ & Hall).
  injection Heq as <- <-.
  pose proof (Forall_last_elt _ rest (n_intent, st0) Hall Hne) as Hfinal.
  destruct Hfinal as ((_ & _ & _ & _ & _ & (a & Ha) & (b & Hb) & (fb & Hfb))
                      & (t & Ht & _)).
  assert (Happ : invoke_under limit st0 e
                 = (Ok (snd (last rest (n_intent, st0))), e')).
  { unfold invoke_under, bind, ret, raise. rewrite Hrun.
    assert (Hshort : (limit <=? List.length ((n_intent, s1) :: rest))%nat = false).
    { apply Nat.leb_gt. simpl List.length. rewrite Hlen. lia. }
    rewrite Hshort. now rewrite (last_skip _ rest _ Hne). }
  exists (snd (last rest (n_intent, st0))), e', t, b, fb, a.
  split; [exact Happ|]. split; [exact Ht|]. split; [exact Hb|].
  split; [exact Hfb|]. split; [exact Ha|].
  split; [rewrite (Hlast (n_intent, st0)) in Ha; injection Ha as <-; lia|].
  split.
  - rewrite Hcalls, Hlen. simpl. rewrite length_app. simpl.
    destruct He1 as [[-> _] | [-> _]]; simpl; [lia|].
    rewrite length_app. simpl. lia.
  - unfold main. cbv zeta. fold st0. rewrite Happ.
    rewrite Ht, Hb, Hfb. simpl get_or.
    destruct (stdout_accepts t); simpl; [|reflexivity].
    destruct b; simpl; [reflexivity|].
    now destruct (stdout_accepts fb).
Qed.


(** ** Steps, one after the other *)

(** X1. An Evaluator step writes [evaluation_ok] and [evaluation_feedback],
    both always, and nothing else: the six other keys of the state are as
    they were, the count among them; and it makes exactly one model call: a
    system message, and a user message that gives the target code, the
    source text and the translation, each under its heading, and asks for
    the JSON object. *)
Theorem eval_step_frame :
  forall (st st' : TranslationState) (e e' : env W) (d : dest),
    step n_eval st e = (Ok (d, st'), e') ->
    query st' = query st /\
    source_text st' = source_text st /\
    target_lang st' = target_lang st /\
    translation st' = translation st /\
    attempts st' = attempts st /\
    max_attempts st' = max_attempts st /\
    (exists b fb, evaluation_ok st' = Some b /\ evaluation_feedback st' = Some fb) /\
    exists src lang text,
      source_text st = Some src /\ target_lang st = Some lang /\
      translation st = Some text /\
      let newline := [10%N] in
      let quote := [34%N] in
      calls e' =
        calls e ++
        [ [ {| role := lit "system";
               content := lit "You are a strict translation evaluator. Respond with valid JSON only." |};
            {| role := lit "user";
               content :=
                 lit "Target language: " ++ lang ++ newline ++ newline
                 ++ lit "Source:" ++ newline ++ src ++ newline ++ newline
                 ++ lit "Translation:" ++ newline ++ text ++ newline ++ newline
                 ++ lit "Return JSON: {" ++ quote ++ lit "ok" ++ quote
                 ++ lit ": boolean, " ++ quote ++ lit "feedback" ++ quote
                 ++ lit ": string}. "
                 ++ lit "If ok is false, feedback must be actionable." |} ] ].
Proof.
  intros st st' e e' d Hstep.
  destruct (step_eval_inv st st' e e' d Hstep) as (src & lang & text & Hs & Hl & Ht).
  rewrite (step_eval_eq st src lang text e Hs Hl Ht) in Hstep. cbv zeta in Hstep.
  destruct (next_dest n_eval _) as [d0|x]; [|discriminate].
  injection Hstep as _ <- <-. simpl.
  repeat (split; [reflexivity|]).
  split; [do 2 eexists; split; reflexivity|].
  exists src, lang, text. repeat (split; [assumption|]).
  now rewrite evaluator_call.
Qed.

(** X2. A Translator step and the Evaluator step after it. The Translator's
    call is the first-pass prompt, or the revise prompt when the state
    holds a feedback that is not blank, with the label of the node. The
    translation the Evaluator is asked about, under the heading
    "Translation:", is the model's answer to that call, stripped, and it is
    the one the state holds afterwards; the two calls are the only ones
    made, in that order; the count went up by one. *)
Theorem evaluator_reads_fresh_translation :
  forall (n : node) (st st1 st2 : TranslationState) (e e1 e2 : env W) (d1 d2 : dest),
    is_translate n = true ->
    step n st e = (Ok (d1, st1), e1) ->
    step n_eval st1 e1 = (Ok (d2, st2), e2) ->
    exists src lang label,
      source_text st = Some src /\ target_lang st = Some lang /\
      In (label, n)
         [ (lit "English", n_translate_en);
           (lit "Japanese", n_translate_ja);
           (lit "French", n_translate_fr) ] /\
      let newline := [10%N] in
      let quote := [34%N] in
      let fb := strip (get_or (evaluation_feedback st) []) in
      let opening := lit "Text:" ++ newline ++ src ++ newline ++ newline
                     ++ lit "Target language: " ++ label ++ newline ++ newline in
      let revision := lit "Revise using this feedback:" ++ newline
                      ++ fb ++ newline ++ newline in
      let closing := lit "Output only the translation." in
      let call :=
        [ {| role := lit "system"; content := lit "You are a professional translator." |};
          {| role := lit "user";
             content := match fb with
                        | [] => opening ++ closing
                        | _ :: _ => opening ++ revision ++ closing
                        end |} ] in
      let text := strip (answer e call) in
      let asked :=
        [ {| role := lit "system";
             content := lit "You are a strict translation evaluator. Respond with valid JSON only." |};
          {| role := lit "user";
             content :=
               lit "Target language: " ++ lang ++ newline ++ newline
               ++ lit "Source:" ++ newline ++ src ++ newline ++ newline
               ++ lit "Translation:" ++ newline ++ text ++ newline ++ newline
               ++ lit "Return JSON: {" ++ quote ++ lit "ok" ++ quote
               ++ lit ": boolean, " ++ quote ++ lit "feedback" ++ quote
               ++ lit ": string}. "
               ++ lit "If ok is false, feedback must be actionable." |} ] in
      d1 = Goto n_eval /\
      translation st2 = Some text /\
      attempts st2 = Some (get_or (attempts st) 0 + 1)%Z /\
      calls e2 = calls e ++ [call; asked].
Proof.
  intros n st st1 st2 e e1 e2 d1 d2 Hn Htr Hev.
  destruct (step_translate_inv n st st1 e e1 d1 Hn Htr) as [src Hs].
  rewrite (step_translate_eq n st src e Hn Hs) in Htr. cbv zeta in Htr.
  rewrite translator_call_prompt in Htr.
  injection Htr as <- <- <-.
  destruct (step_eval_inv _ st2 _ e2 d2 Hev) as (src' & lang & text & Hs' & Hl & Ht).
  rewrite (step_eval_eq _ src' lang text _ Hs' Hl Ht) in Hev. cbv zeta in Hev.
  rewrite evaluator_call in Hev.
  destruct (next_dest n_eval _) as [d0|x]; [|discriminate].
  injection Hev as _ <- <-.
  simpl in Hs', Hl, Ht. rewrite Hs in Hs'. injection Hs' as <-. injection Ht as <-.
  exists src, lang, (label_of n). split; [exact Hs|]. split; [exact Hl|].
  split; [exact (label_cases n Hn)|]. cbv zeta.
  split; [reflexivity|]. split; [reflexivity|]. split; [reflexivity|].
  simpl. now rewrite <- app_assoc.
Qed.

Lemma not_valid_json_head (resp : str) :
  exists p, not_valid_json resp = 69%N :: p ++ resp.
Proof.
  exists (tl (lit "Evaluator output was not valid JSON: ")). reflexivity.
Qed.

(** X3. After an Evaluator step on whose response [json.loads] raised or
    returned no object, the Translator's next call is never the first-pass
    one: it is the revise prompt, whose revision section carries the
    Evaluator's diagnostic, stripped; and when the response is not empty,
    that is the whole diagnostic, so the prompt contains the response. *)
Theorem unparsable_verdict_gives_revise_prompt :
  forall (st st' : TranslationState) (e e' : env W) (d : dest) (label : str),
    step n_eval st e = (Ok (d, st'), e') ->
    exists src lang text,
      source_text st = Some src /\ target_lang st = Some lang /\
      translation st = Some text /\
      let newline := [10%N] in
      let quote := [34%N] in
      let asked :=
        [ {| role := lit "system";
             content := lit "You are a strict translation evaluator. Respond with valid JSON only." |};
          {| role := lit "user";
             content :=
               lit "Target language: " ++ lang ++ newline ++ newline
               ++ lit "Source:" ++ newline ++ src ++ newline ++ newline
               ++ lit "Translation:" ++ newline ++ text ++ newline ++ newline
               ++ lit "Return JSON: {" ++ quote ++ lit "ok" ++ quote
               ++ lit ": boolean, " ++ quote ++ lit "feedback" ++ quote
               ++ lit ": string}. "
               ++ lit "If ok is false, feedback must be actionable." |} ] in
      let resp := strip (answer e asked) in
      ((forall data, json_loads resp <> Some (PDict data)) ->
       let diagnostic := strip (lit "Evaluator output was not valid JSON: " ++ resp) in
       let opening := lit "Text:" ++ newline ++ src ++ newline ++ newline
                      ++ lit "Target language: " ++ label ++ newline ++ newline in
       let revision := lit "Revise using this feedback:" ++ newline
                       ++ diagnostic ++ newline ++ newline in
       let closing := lit "Output only the translation." in
       snd (_translate st' label e') =
         after_call e'
           [ {| role := lit "system"; content := lit "You are a professional translator." |};
             {| role := lit "user"; content := opening ++ revision ++ closing |} ] /\
       opening ++ revision ++ closing <> opening ++ closing /\
       contains diagnostic (opening ++ revision ++ closing) = true /\
       (resp <> [] ->
          diagnostic = lit "Evaluator output was not valid JSON: " ++ resp /\
          contains resp (opening ++ revision ++ closing) = true)).
Proof.
  intros st st' e e' d label Hstep.
  destruct (step_eval_inv st st' e e' d Hstep) as (src & lang & text & Hs & Hl & Ht).
  exists src, lang, text. repeat (split; [assumption|]).
  intros newline quote asked resp Hfail diagnostic opening revision closing.
  rewrite (step_eval_eq st src lang text e Hs Hl Ht) in Hstep. cbv zeta in Hstep.
  rewrite evaluator_call in Hstep. fold newline quote asked resp in Hstep.
  rewrite (verdict_of_failure resp Hfail) in Hstep.
  destruct (next_dest n_eval _) as [d0|x]; [|discriminate].
  injection Hstep as _ <- <-.
  destruct (not_valid_json_head resp) as [p Hp].
  set (st1 := apply_update st (eval_update (false, not_valid_json resp))).
  assert (Hs1 : source_text st1 = Some src) by exact Hs.
  assert (Hdiag : exists k t, diagnostic = k :: t).
  { unfold diagnostic. change (lit "Evaluator output was not valid JSON: " ++ resp)
      with (not_valid_json resp).
    destruct (strip (not_valid_json resp)) as [|k t] eqn:E; [|now exists k, t].
    apply strip_nil_iff in E. rewrite Hp in E. discriminate. }
  assert (Hin : contains diagnostic (opening ++ revision ++ closing) = true).
  { apply contains_app_r. unfold revision. repeat rewrite <- app_assoc.
    do 2 apply contains_app_r. apply contains_prefix. }
  split; [|split; [|split; [exact Hin|]]].
  - rewrite (translate_eq st1 label src _ Hs1). cbv zeta.
    change (get_or (evaluation_feedback st1) []) with (not_valid_json resp).
    rewrite translator_call_prompt. fold diagnostic.
    change (strip (not_valid_json resp)) with diagnostic.
    destruct Hdiag as (k & t & Hk).
    assert (Hm : forall a b : str,
               match diagnostic with [] => a | _ :: _ => b end = b)
      by (intros; now rewrite Hk).
    rewrite Hm. reflexivity.
  - apply insert_differs. unfold revision. discriminate.
  - intros Hne.
    assert (Hwhole : diagnostic = lit "Evaluator output was not valid JSON: " ++ resp).
    { unfold diagnostic.
      change (lit "Evaluator output was not valid JSON: " ++ resp)
        with (not_valid_json resp).
      rewrite Hp. unfold strip.
      change (lstrip (69%N :: p ++ resp)) with (69%N :: p ++ resp).
      change (69%N :: p ++ resp) with ((69%N :: p) ++ resp).
      assert (Hr : rstrip resp = resp) by (apply stripped_rstrip, strip_stripped).
      rewrite rstrip_app_nonblank; rewrite Hr; [reflexivity | exact Hne]. }
    split; [exact Hwhole|].
    apply contains_app_r. unfold revision. repeat rewrite <- app_assoc.
    do 2 apply contains_app_r. rewrite Hwhole.
    rewrite <- app_assoc. apply contains_app_r. apply contains_prefix.
Qed.

(** X10. The calls of the intent step, message by message. When a rule
    names the language, the one call is the extractor's: a system message,
    and the query as the user message; the source text is the answer,
    stripped. When no rule does, the classifier is called first, with the
    query under its heading, and the extractor after it, so the extractor's
    answer is the second one the model gives; the target language is the
    classifier's answer stripped and lowercased if that is one of the three
    codes, and [en] otherwise. *)
Theorem intent_calls_spelled :
  forall (st : TranslationState) (q : str) (e : env W),
    query st = Some q ->
    let extractor :=
      [ {| role := lit "system"; content := lit "Extract only the text to be translated." |};
        {| role := lit "user"; content := q |} ] in
    let classifier :=
      [ {| role := lit "system";
           content := lit "You are a classifier. Output exactly one token: en, ja, or fr." |};
        {| role := lit "user";
           content := lit "Decide target language for translation request:"
                      ++ [10%N] ++ q |} ] in
    exists upd e',
      intent_node st e = (Ok upd, e') /\
      match _detect_target_lang_rule q with
      | Some c =>
          e' = after_call e extractor /\
          target_lang upd = Some c /\
          source_text upd = Some (strip (answer e extractor))
      | None =>
          e' = after_call (after_call e classifier) extractor /\
          source_text upd = Some (strip (answer (after_call e classifier) extractor)) /\
          let token := py_lower (strip (answer e classifier)) in
          target_lang upd =
            Some (if str_eqb token (lit "en") || str_eqb token (lit "ja")
                     || str_eqb token (lit "fr")
                  then token else lit "en")
      end.
Proof.
  intros st q e Hq extractor classifier.
  assert (Hex : extractor_messages q = extractor) by reflexivity.
  assert (Hcl : classifier_messages q = classifier) by reflexivity.
  rewrite detect_first_match. destruct (first_match q) as [l|] eqn:Hl.
  - rewrite (intent_eq_rule st q l e Hq Hl). rewrite Hex.
    do 2 eexists. split; [reflexivity|]. simpl. repeat split.
  - rewrite (intent_eq_fallback st q e Hq Hl). cbv zeta. rewrite Hex, Hcl.
    do 2 eexists. split; [reflexivity|]. simpl. repeat split.
Qed.


(** X9. A missing key. A node that reads a key the state does not have
    raises [KeyError] for it before any model call: [query] for the intent
    node (so [app.invoke] on an input without a query raises it, whatever
    its budget of one step or more), [source_text] for a translate node,
    which then counts no attempt, and for [eval] the first missing one of
    [source_text], [target_lang] and [translation]. *)
Theorem missing_key_raises_before_any_call :
  forall (st : TranslationState) (e : env W),
    (query st = None ->
     forall limit,
       app_invoke (S limit) st e = (Raise (KeyError (lit "query")), e)) /\
    (source_text st = None ->
     forall n, n <> n_intent ->
       step n st e = (Raise (KeyError (lit "source_text")), e)) /\
    (forall src, source_text st = Some src -> target_lang st = None ->
       step n_eval st e = (Raise (KeyError (lit "target_lang")), e)) /\
    (forall src lang, source_text st = Some src -> target_lang st = Some lang ->
       translation st = None ->
       step n_eval st e = (Raise (KeyError (lit "translation")), e)).
Proof.
  intros st e. split; [|split; [|split]].
  - intros Hq limit. unfold app_invoke. unfold bind at 1. rewrite run_S.
    unfold step. unfold bind at 1. simpl run_node. unfold intent_node.
    unfold_monad. now rewrite Hq.
  - intros Hs n Hn. unfold step. unfold bind at 1.
    destruct n; try congruence; simpl run_node;
      unfold translate_en_node, translate_ja_node, translate_fr_node,
        _translate, eval_node; unfold_monad; now rewrite Hs.
  - intros src Hs Hl. unfold step. unfold bind at 1. simpl run_node.
    unfold eval_node. unfold_monad. now rewrite Hs, Hl.
  - intros src lang Hs Hl Ht. unfold step. unfold bind at 1. simpl run_node.
    unfold eval_node. unfold_monad. now rewrite Hs, Hl, Ht.
Qed.

End Workflow.

(** ** The sample sessions, run *)

Lemma ascii_lower_case_variant (a b : str) :
  case_variant a b -> ascii_lower a = ascii_lower b.
Proof.
  induction 1 as [|c d a b Hcd Hab IH]; simpl; [reflexivity|].
  now rewrite Hcd, IH.
Qed.

(** A feedback of two spaces and a newline: the Translator's call is the
    first-pass one, with no revision section. A feedback with text in it:
    the call is the revise one, with the feedback stripped. *)
Lemma translate_prompt_shape_witness :
  (source_text sample_blank_feedback = Some (lit "hello") /\
   forallb is_space (get_or (evaluation_feedback sample_blank_feedback) []) = true /\
   calls (snd (_translate sample_blank_feedback (lit "French")
                          (start_env [lit "bonjour"]))) =
     [ [ {| role := lit "system"; content := lit "You are a professional translator." |};
         {| role := lit "user";
            content := lit "Text:" ++ [10%N] ++ lit "hello" ++ [10%N; 10%N]
                       ++ lit "Target language: French" ++ [10%N; 10%N]
                       ++ lit "Output only the translation." |} ] ])
  /\
  (source_text sample_rejected = Some (lit "hello") /\
   forallb is_space (get_or (evaluation_feedback sample_rejected) []) = false /\
   calls (snd (_translate sample_rejected (lit "French")
                          (start_env [lit "Bonjour"]))) =
     [ [ {| role := lit "system"; content := lit "You are a professional translator." |};
         {| role := lit "user";
            content := lit "Text:" ++ [10%N] ++ lit "hello" ++ [10%N; 10%N]
                       ++ lit "Target language: French" ++ [10%N; 10%N]
                       ++ lit "Revise using this feedback:" ++ [10%N]
                       ++ lit "Use the formal register" ++ [10%N; 10%N]
                       ++ lit "Output only the translation." |} ] ]).
Proof.
  split.
  - split; [reflexivity|]. split; [reflexivity|].
    destruct (translate_prompt_shape sample_blank_feedback (lit "French") (lit "hello")
                (start_env [lit "bonjour"]) eq_refl) as [Hblank _].
    destruct (Hblank eq_refl) as [_ Hcall]. rewrite Hcall. reflexivity.
  - split; [reflexivity|]. split; [reflexivity|].
    destruct (translate_prompt_shape sample_rejected (lit "French") (lit "hello")
                (start_env [lit "Bonjour"]) eq_refl) as [_ Hrevise].
    destruct (Hrevise eq_refl) as [Hcall _]. rewrite Hcall. reflexivity.
Defined.

(** A French translate step on [sample_translated]: the count goes from 1
    to 2 and the target language stays. *)
Lemma translate_step_frame_witness :
  is_translate n_translate_fr = true /\
  exists d st' e',
    step ascii_lower sample_repr sample_loads n_translate_fr sample_translated
         (start_env [lit "bonjour"]) = (Ok (d, st'), e') /\
    attempts st' = Some 2%Z /\
    target_lang st' = target_lang sample_translated /\
    evaluation_feedback st' = evaluation_feedback sample_translated.
Proof.
  split; [reflexivity|].
  destruct (step ascii_lower sample_repr sample_loads n_translate_fr sample_translated
                 (start_env [lit "bonjour"])) as [[[d st']|x] e'] eqn:Hstep;
    [|vm_compute in Hstep; discriminate].
  exists d, st', e'. split; [reflexivity|].
  destruct (translate_step_frame ascii_lower sample_repr sample_loads n_translate_fr
              sample_translated st' (start_env [lit "bonjour"]) e' d eq_refl Hstep)
    as (_ & _ & Hlang & _ & _ & Hfb & Hatt & _).
  split; [exact Hatt|]. split; [exact Hlang | exact Hfb].
Defined.

(** A response in prose: a rejection whose feedback quotes it. *)
Lemma eval_never_raises_and_rejects_unparsable_witness :
  source_text sample_translated = Some (lit "hello") /\
  target_lang sample_translated = Some code_fr /\
  translation sample_translated = Some (lit "bonjour") /\
  exists upd,
    fst (eval_node sample_repr sample_loads sample_translated (start_env [resp_prose])) = Ok upd /\
    evaluation_ok upd = Some false /\
    evaluation_feedback upd =
      Some (lit "Evaluator output was not valid JSON: Looks fine to me").
Proof.
  repeat (split; [reflexivity|]).
  destruct (eval_never_raises_and_rejects_unparsable sample_repr sample_loads sample_translated
              (lit "hello") code_fr (lit "bonjour") (start_env [resp_prose])
              eq_refl eq_refl eq_refl) as (upd & Heq & Hfail & _).
  exists upd. split; [now rewrite Heq|].
  destruct Hfail as (Hok & Hfb & _); [intros d; vm_compute; discriminate|].
  split; [exact Hok | exact Hfb].
Defined.

(** An acceptance with a comment: the feedback is that of the response. *)
Lemma eval_feedback_when_accepted_witness :
  source_text sample_translated = Some (lit "hello") /\
  target_lang sample_translated = Some code_fr /\
  translation sample_translated = Some (lit "bonjour") /\
  exists upd d,
    fst (eval_node sample_repr sample_loads sample_translated
                   (start_env [resp_accept_with_comment])) = Ok upd /\
    evaluation_ok (apply_update sample_translated upd) = Some true /\
    sample_loads resp_accept_with_comment = Some (PDict d) /\
    evaluation_feedback (apply_update sample_translated upd) =
      Some (strip (py_str sample_repr (dict_get d (lit "feedback") (PStr [])))).
Proof.
  repeat (split; [reflexivity|]).
  destruct (eval_feedback_when_accepted sample_repr sample_loads sample_translated
              (lit "hello") code_fr (lit "bonjour")
              (start_env [resp_accept_with_comment])
              eq_refl eq_refl eq_refl) as (upd & Heq & Hacc).
  assert (Hok : evaluation_ok (apply_update sample_translated upd) = Some true).
  { vm_compute in Heq. injection Heq as <-. reflexivity. }
  destruct (Hacc Hok) as (d & Hd & _ & Hfb & _).
  exists upd, d. split; [now rewrite Heq|].
  split; [exact Hok|]. split; [exact Hd | exact Hfb].
Defined.

(** [sample_query] names French: the code is [fr] and only the extractor
    is called. *)
Lemma rule_match_decides_without_fallback_witness :
  query (session_input sample_query 3) = Some sample_query /\
  kw_matches ascii_lower sample_query (AnyCase kw_french) = true /\
  exists upd e',
    intent_node ascii_lower (session_input sample_query 3) (start_env [lit "hello"])
      = (Ok upd, e') /\
    target_lang upd = Some code_fr /\
    calls e' = [extractor_messages sample_query].
Proof.
  split; [reflexivity|]. split; [vm_compute; reflexivity|].
  assert (Hkw : exists row kw,
             In row rule_table /\ In kw (snd row) /\
             kw_matches ascii_lower sample_query kw = true).
  { exists (French, [AsTyped kw_fayu; AsTyped kw_fawen; AnyCase kw_french;
                     AnyCase kw_francais]), (AnyCase kw_french).
    split; [left; reflexivity|].
    split; [right; right; left; reflexivity | vm_compute; reflexivity]. }
  destruct (rule_match_decides_without_fallback ascii_lower
              (session_input sample_query 3) sample_query
              (start_env [lit "hello"]) eq_refl Hkw)
    as (l & upd & e' & Hfirst & _ & Heq & Hlang & Hcalls).
  vm_compute in Hfirst. injection Hfirst as <-.
  exists upd, e'. split; [exact Heq|]. split; [exact Hlang | exact Hcalls].
Defined.

(** No keyword, and a model that answers "Deutsch": English. *)
Lemma classifier_total_witness :
  query (session_input sample_query_plain 3) = Some sample_query_plain /\
  exists upd e',
    intent_node ascii_lower (session_input sample_query_plain 3)
                (start_env [lit "Deutsch"; lit "hello"]) = (Ok upd, e') /\
    target_lang upd = Some code_en.
Proof.
  split; [reflexivity|].
  destruct (classifier_total ascii_lower (session_input sample_query_plain 3)
              sample_query_plain (start_env [lit "Deutsch"; lit "hello"]) eq_refl)
    as (upd & e' & c & Heq & Hlang & _ & Hdefault).
  exists upd, e'. split; [exact Heq|].
  rewrite Hlang. f_equal. apply Hdefault; vm_compute; reflexivity.
Defined.

(** An input with a query only: 0 attempts, a ceiling of 3, no verdict yet. *)
Lemma intent_step_initialises_witness :
  query sample_bare_input = Some sample_query_plain /\
  exists upd e',
    intent_node ascii_lower sample_bare_input (start_env [lit "fr"; lit "hello"])
      = (Ok upd, e') /\
    let st' := apply_update sample_bare_input upd in
    target_lang st' = Some code_fr /\
    attempts st' = Some 0%Z /\ max_attempts st' = Some 3%Z /\
    evaluation_ok st' = Some false /\ evaluation_feedback st' = Some [].
Proof.
  split; [reflexivity|].
  destruct (intent_step_initialises ascii_lower sample_bare_input sample_query_plain
              (start_env [lit "fr"; lit "hello"]) eq_refl)
    as (upd & e' & Heq & Hlang & Hok & Hfb & _ & _ & Hatt & Hmax).
  exists upd, e'. split; [exact Heq|]. cbv zeta.
  split; [exact Hlang|]. split; [exact (Hatt eq_refl)|].
  split; [exact (Hmax eq_refl)|]. split; [exact Hok | exact Hfb].
Defined.

(** The answers " FR " and "fr" give the same target language, French. *)
Lemma fallback_response_is_normalised_witness :
  query (session_input sample_query_plain 3) = Some sample_query_plain /\
  exists upd1 e1' upd2 e2',
    intent_node ascii_lower (session_input sample_query_plain 3)
                (start_env [lit " FR "; lit "hello"]) = (Ok upd1, e1') /\
    intent_node ascii_lower (session_input sample_query_plain 3)
                (start_env [lit "fr"; lit "hello"]) = (Ok upd2, e2') /\
    target_lang upd1 = target_lang upd2 /\
    target_lang upd1 = Some code_fr.
Proof.
  split; [reflexivity|].
  assert (Hdiff : differ_in_case_or_space
                    (answer (start_env [lit " FR "; lit "hello"])
                            (classifier_messages sample_query_plain))
                    (answer (start_env [lit "fr"; lit "hello"])
                            (classifier_messages sample_query_plain))).
  { exists (lit "FR"), (lit "fr").
    split; [exists (lit " "), (lit " "); repeat split|].
    split; [exists [], []; repeat split|].
    repeat constructor. }
  destruct (fallback_response_is_normalised ascii_lower ascii_lower_case_variant
              (session_input sample_query_plain 3) sample_query_plain
              (start_env [lit " FR "; lit "hello"])
              (start_env [lit "fr"; lit "hello"]) eq_refl Hdiff)
    as (upd1 & e1' & upd2 & e2' & H1 & H2 & Hsame & Hnorm).
  exists upd1, e1', upd2, e2'. split; [exact H1|]. split; [exact H2|].
  split; [exact Hsame|]. apply Hnorm. vm_compute. reflexivity.
Defined.

(** A session under the ceiling 3 whose translations are all rejected:
    three Translator invocations, and a final [attempts] of three. *)
Lemma session_attempts_bounded_witness :
  exists trace e',
    run ascii_lower sample_repr sample_loads 25 n_intent (session_input sample_query 3)
        (start_env script_three_rejections) = (Ok trace, e') /\
    translator_runs trace = 3%nat /\
    attempts (snd (last trace (n_intent, session_input sample_query 3)))
      = Some (Z.of_nat (translator_runs trace)) /\
    (Z.of_nat (translator_runs trace) <= 3)%Z.
Proof.
  destruct (session_attempts_bounded ascii_lower sample_repr sample_loads sample_query 3
              (start_env script_three_rejections))
    as (trace & e' & Hrun & _ & _ & Hfinal & _ & _ & Hle & _).
  destruct (Hrun 25%nat) as [Hrun25 _]; [vm_compute; lia|].
  exists trace, e'. split; [exact Hrun25|].
  split; [vm_compute in Hrun25; injection Hrun25 as <- _; reflexivity|].
  split; [exact Hfinal | apply Hle; lia].
Defined.

(** The first rejection of that session: back to the French translate
    node, whose next call revises with the feedback just given. *)
Lemma retry_returns_with_latest_feedback_witness :
  exists s1 e1 se ee se' ee' upd,
    step ascii_lower sample_repr sample_loads n_intent (session_input sample_query 3)
         (start_env script_three_rejections) = (Ok (Goto n_translate_fr, s1), e1) /\
    step ascii_lower sample_repr sample_loads n_translate_fr s1 e1 = (Ok (Goto n_eval, se), ee) /\
    step ascii_lower sample_repr sample_loads n_eval se ee = (Ok (Goto n_translate_fr, se'), ee') /\
    evaluation_feedback se' = Some (lit "Use the formal register") /\
    run_node ascii_lower sample_repr sample_loads n_translate_fr se' ee' =
      (Ok upd,
       after_call ee'
         [ {| role := lit "system"; content := lit "You are a professional translator." |};
           {| role := lit "user";
              content := lit "Text:" ++ [10%N] ++ lit "hello" ++ [10%N; 10%N]
                         ++ lit "Target language: French" ++ [10%N; 10%N]
                         ++ lit "Revise using this feedback:" ++ [10%N]
                         ++ lit "Use the formal register" ++ [10%N; 10%N]
                         ++ lit "Output only the translation." |} ]).
Proof.
  destruct (step ascii_lower sample_repr sample_loads n_intent (session_input sample_query 3)
                 (start_env script_three_rejections))
    as [[[d1 s1]|x] e1] eqn:H1; [|vm_compute in H1; discriminate].
  assert (Hd1 : d1 = Goto n_translate_fr)
    by (vm_compute in H1; injection H1 as <- _ _; reflexivity).
  subst d1.
  destruct (step ascii_lower sample_repr sample_loads n_translate_fr s1 e1)
    as [[[d2 se]|x] ee] eqn:H2;
    [|vm_compute in H1; injection H1 as <- <-; vm_compute in H2; discriminate].
  assert (Hd2 : d2 = Goto n_eval)
    by (vm_compute in H1; injection H1 as <- <-; vm_compute in H2;
        injection H2 as <- _ _; reflexivity).
  subst d2.
  destruct (step ascii_lower sample_repr sample_loads n_eval se ee)
    as [[[d3 se']|x] ee'] eqn:H3;
    [|vm_compute in H1; injection H1 as <- <-; vm_compute in H2;
      injection H2 as <- <-; vm_compute in H3; discriminate].
  assert (Hse' : get_or (evaluation_ok se') false = false /\
                 (get_or (attempts se') 0 < get_or (max_attempts se') 3)%Z).
  { vm_compute in H1; injection H1 as <- <-. vm_compute in H2; injection H2 as <- <-.
    vm_compute in H3; injection H3 as _ <- _. split; reflexivity. }
  destruct Hse' as [Hrej Hleft].
  assert (Hreach : reaches ascii_lower sample_repr sample_loads
                           (n_translate_fr, s1, e1) (n_eval, se, ee))
    by (eapply reaches_step; [exact H2 | apply reaches_here]).
  destruct (retry_returns_with_latest_feedback ascii_lower sample_repr sample_loads
              (session_input sample_query 3) s1 se se'
              (start_env script_three_rejections) e1 ee ee' n_translate_fr d3
              H1 Hreach H3 Hrej Hleft)
    as (_ & -> & _ & src & lang & label & text & Hsrc & Hlang & Htext & Hin & Hrest).
  cbv zeta in Hrest. destruct Hrest as (_ & Hfb & _ & upd & Hcall).
  pose proof H1 as C1. vm_compute in C1. injection C1 as <- <-.
  pose proof H2 as C2. vm_compute in C2. injection C2 as <- <-.
  pose proof H3 as C3. vm_compute in C3. injection C3 as <- <-.
  vm_compute in Hsrc, Hlang, Htext.
  injection Hsrc as <-. injection Hlang as <-. injection Htext as <-.
  assert (Hlabel : label = lit "French").
  { destruct Hin as [Heq|[Heq|[Heq|[]]]]; try discriminate Heq.
    inversion Heq. reflexivity. }
  subst label.
  do 6 eexists. exists upd.
  split; [exact H1|]. split; [exact H2|]. split; [exact H3|].
  split; [exact Hfb | exact Hcall].
Defined.

(** ** Where the code parts from the specification *)

(** C1 at [max_attempts = 0]. A ceiling of 0 does not keep the Translator
    from running: the session makes one invocation, one more than
    [max_attempts]. *)
Lemma zero_ceiling_still_translates_once :
  match fst (run ascii_lower sample_repr sample_loads 25 n_intent (session_input sample_query 0)
                 (start_env script_three_rejections)) with
  | Ok trace =>
      translator_runs trace = 1%nat /\
      max_attempts (snd (last trace (n_intent, session_input sample_query 0))) = Some 0%Z /\
      (0 < Z.of_nat (translator_runs trace))%Z
  | Raise _ => False
  end.
Proof. vm_compute. repeat split; reflexivity. Qed.

(** C2 at the response [{"ok": 1}]. A flag that is a number is no parse
    failure: the response is read as an acceptance, with an empty feedback
    that quotes nothing. *)
Lemma number_flag_is_accepted :
  sample_loads resp_flag_number = Some (PDict [(lit "ok", PInt 1)]) /\
  fst (eval_node sample_repr sample_loads sample_translated (start_env [resp_flag_number]))
    = Ok (eval_update (true, [])).
Proof. split; vm_compute; reflexivity. Qed.

(** C3 at the response [{"ok": true, "feedback": "Good"}]. An acceptance
    keeps the feedback the evaluator wrote: the step leaves
    [evaluation_ok = true] and [evaluation_feedback = "Good"]. *)
Lemma accepted_feedback_not_empty :
  match fst (step ascii_lower sample_repr sample_loads n_eval sample_translated
                  (start_env [resp_accept_with_comment])) with
  | Ok (_, st') =>
      evaluation_ok st' = Some true /\
      evaluation_feedback st' = Some (lit "Good") /\
      evaluation_feedback st' <> Some []
  | Raise _ => False
  end.
Proof. vm_compute. repeat split; try reflexivity. discriminate. Qed.

(** ** More of the sample sessions *)

(** X1 on a rejection of [sample_translated]: the count and the translation
    stay, and the one call is the Evaluator's. *)
Lemma eval_step_frame_witness :
  exists d st' e',
    step ascii_lower sample_repr sample_loads n_eval sample_translated (start_env [resp_reject])
      = (Ok (d, st'), e') /\
    attempts st' = Some 1%Z /\
    translation st' = Some (lit "bonjour") /\
    calls e' =
      [ [ {| role := lit "system";
             content := lit "You are a strict translation evaluator. Respond with valid JSON only." |};
          {| role := lit "user";
             content :=
               lit "Target language: fr" ++ [10%N; 10%N]
               ++ lit "Source:" ++ [10%N] ++ lit "hello" ++ [10%N; 10%N]
               ++ lit "Translation:" ++ [10%N] ++ lit "bonjour" ++ [10%N; 10%N]
               ++ lit "Return JSON: {" ++ [34%N] ++ lit "ok" ++ [34%N]
               ++ lit ": boolean, " ++ [34%N] ++ lit "feedback" ++ [34%N]
               ++ lit ": string}. If ok is false, feedback must be actionable." |} ] ].
Proof.
  destruct (step ascii_lower sample_repr sample_loads n_eval sample_translated
                 (start_env [resp_reject])) as [[[d st']|x] e'] eqn:Hstep;
    [|vm_compute in Hstep; discriminate].
  destruct (eval_step_frame ascii_lower sample_repr sample_loads sample_translated st'
              (start_env [resp_reject]) e' d Hstep)
    as (_ & _ & _ & Htext & Hatt & _ & _ & src & lang & text & Hs & Hl & Ht & Hcalls).
  simpl in Hs, Hl, Ht. injection Hs as <-. injection Hl as <-. injection Ht as <-.
  exists d, st', e'. split; [reflexivity|].
  split; [exact Hatt|]. split; [exact Htext | exact Hcalls].
Defined.

(** X2 on [sample_rejected]: the Translator is asked to revise, and the
    Evaluator is asked about "Bonjour", the answer just given, stripped. *)
Lemma evaluator_reads_fresh_translation_witness :
  is_translate n_translate_fr = true /\
  exists d1 st1 e1 d2 st2 e2,
    step ascii_lower sample_repr sample_loads n_translate_fr sample_rejected
         (start_env [lit " Bonjour "; resp_reject]) = (Ok (d1, st1), e1) /\
    step ascii_lower sample_repr sample_loads n_eval st1 e1 = (Ok (d2, st2), e2) /\
    translation st2 = Some (lit "Bonjour") /\
    attempts st2 = Some 2%Z /\
    calls e2 =
      [ [ {| role := lit "system"; content := lit "You are a professional translator." |};
          {| role := lit "user";
             content := lit "Text:" ++ [10%N] ++ lit "hello" ++ [10%N; 10%N]
                        ++ lit "Target language: French" ++ [10%N; 10%N]
                        ++ lit "Revise using this feedback:" ++ [10%N]
                        ++ lit "Use the formal register" ++ [10%N; 10%N]
                        ++ lit "Output only the translation." |} ];
        [ {| role := lit "system";
             content := lit "You are a strict translation evaluator. Respond with valid JSON only." |};
          {| role := lit "user";
             content :=
               lit "Target language: fr" ++ [10%N; 10%N]
               ++ lit "Source:" ++ [10%N] ++ lit "hello" ++ [10%N; 10%N]
               ++ lit "Translation:" ++ [10%N] ++ lit "Bonjour" ++ [10%N; 10%N]
               ++ lit "Return JSON: {" ++ [34%N] ++ lit "ok" ++ [34%N]
               ++ lit ": boolean, " ++ [34%N] ++ lit "feedback" ++ [34%N]
               ++ lit ": string}. If ok is false, feedback must be actionable." |} ] ].
Proof.
  split; [reflexivity|].
  destruct (step ascii_lower sample_repr sample_loads n_translate_fr sample_rejected
                 (start_env [lit " Bonjour "; resp_reject]))
    as [[[d1 st1]|x] e1] eqn:H1; [|vm_compute in H1; discriminate].
  destruct (step ascii_lower sample_repr sample_loads n_eval st1 e1)
    as [[[d2 st2]|x] e2] eqn:H2;
    [|vm_compute in H1; injection H1 as _ <- <-; vm_compute in H2; discriminate].
  destruct (evaluator_reads_fresh_translation ascii_lower sample_repr sample_loads
              n_translate_fr sample_rejected st1 st2
              (start_env [lit " Bonjour "; resp_reject]) e1 e2 d1 d2
              eq_refl H1 H2)
    as (src & lang & label & Hs & Hl & Hin & _ & Htext & Hatt & Hcalls).
  simpl in Hs, Hl. injection Hs as <-. injection Hl as <-.
  assert (Hlabel : label = lit "French").
  { destruct Hin as [Heq|[Heq|[Heq|[]]]]; try discriminate Heq.
    inversion Heq. reflexivity. }
  subst label.
  exists d1, st1, e1, d2, st2, e2. split; [reflexivity|]. split; [exact H2|].
  split; [exact Htext|]. split; [exact Hatt | exact Hcalls].
Defined.

(** X3 on a response in prose: the next call revises with the diagnostic,
    which quotes the response. *)
Lemma unparsable_verdict_gives_revise_prompt_witness :
  exists d st' e',
    step ascii_lower sample_repr sample_loads n_eval sample_translated (start_env [resp_prose])
      = (Ok (d, st'), e') /\
    snd (_translate st' (lit "French") e') =
      after_call e'
        [ {| role := lit "system"; content := lit "You are a professional translator." |};
          {| role := lit "user";
             content := lit "Text:" ++ [10%N] ++ lit "hello" ++ [10%N; 10%N]
                        ++ lit "Target language: French" ++ [10%N; 10%N]
                        ++ lit "Revise using this feedback:" ++ [10%N]
                        ++ lit "Evaluator output was not valid JSON: Looks fine to me"
                        ++ [10%N; 10%N]
                        ++ lit "Output only the translation." |} ].
Proof.
  destruct (step ascii_lower sample_repr sample_loads n_eval sample_translated
                 (start_env [resp_prose])) as [[[d st']|x] e'] eqn:Hstep;
    [|vm_compute in Hstep; discriminate].
  destruct (unparsable_verdict_gives_revise_prompt ascii_lower sample_repr sample_loads
              sample_translated st' (start_env [resp_prose]) e' d (lit "French") Hstep)
    as (src & lang & text & Hs & Hl & Ht & Hfail).
  simpl in Hs, Hl, Ht. injection Hs as <-. injection Hl as <-. injection Ht as <-.
  cbv zeta in Hfail.
  destruct Hfail as (Hcall & _); [intros data; vm_compute; discriminate|].
  exists d, st', e'. split; [reflexivity|].
  rewrite Hcall. reflexivity.
Defined.

(** X4 on the session of three rejections. *)
Lemma session_states_keep_intent_witness :
  exists trace e' s1 rest c src n1,
    run ascii_lower sample_repr sample_loads 25 n_intent (session_input sample_query 3)
        (start_env script_three_rejections) = (Ok trace, e') /\
    trace = (n_intent, s1) :: rest /\
    Forall (fun p => loop_state (Some sample_query) src c 3 n1 (fst p) (snd p)) rest.
Proof.
  destruct (run ascii_lower sample_repr sample_loads 25 n_intent (session_input sample_query 3)
                (start_env script_three_rejections))
    as [[trace|x] e'] eqn:Hrun; [|vm_compute in Hrun; discriminate].
  destruct (session_states_keep_intent ascii_lower sample_repr sample_loads
              (session_input sample_query 3) sample_query
              (start_env script_three_rejections) e' 25 trace eq_refl Hrun)
    as (s1 & rest & c & src & n1 & Ht & _ & _ & _ & _ & Hall).
  exists trace, e', s1, rest, c, src, n1.
  split; [reflexivity|]. split; [exact Ht | exact Hall].
Defined.

(** X5 on an input that comes with a count of 5 under a ceiling of 3: one
    Translator run, and a final count of 6. *)
Lemma session_bound_any_input_witness :
  query sample_over_ceiling = Some sample_query /\
  exists trace e',
    run ascii_lower sample_repr sample_loads 25 n_intent sample_over_ceiling
        (start_env script_three_rejections) = (Ok trace, e') /\
    translator_runs trace = 1%nat /\
    attempts (snd (last trace (n_intent, sample_over_ceiling))) = Some 6%Z.
Proof.
  split; [reflexivity|].
  destruct (session_bound_any_input ascii_lower sample_repr sample_loads sample_over_ceiling
              sample_query (start_env script_three_rejections) 25 eq_refl)
    as (trace & e' & Hrun & _ & _ & Hone & _ & Hfinal); [vm_compute; lia|].
  exists trace, e'. split; [exact Hrun|].
  assert (HN : translator_runs trace = 1%nat) by (apply Hone; vm_compute; discriminate).
  split; [exact HN|]. rewrite Hfinal, HN. reflexivity.
Defined.

(** X6 on the session of three rejections: seven calls. *)
Lemma session_model_calls_witness :
  query (session_input sample_query 3) = Some sample_query /\
  exists trace e',
    run ascii_lower sample_repr sample_loads 25 n_intent (session_input sample_query 3)
        (start_env script_three_rejections) = (Ok trace, e') /\
    List.length (calls e') = (1 + 2 * translator_runs trace)%nat /\
    (List.length (calls e') <= 8)%nat.
Proof.
  split; [reflexivity|].
  destruct (session_model_calls ascii_lower sample_repr sample_loads (session_input sample_query 3)
              sample_query (start_env script_three_rejections) 25 eq_refl)
    as (trace & e' & Hrun & Hcalls & Hle); [vm_compute; lia|].
  exists trace, e'. split; [exact Hrun|]. split; [exact Hcalls | exact Hle].
Defined.

(** X7 on the session of three rejections. *)
Lemma app_invoke_result_complete_witness :
  exists final e' t,
    app_invoke ascii_lower sample_repr sample_loads 25 (session_input sample_query 3)
               (start_env script_three_rejections) = (Ok final, e') /\
    query final = Some sample_query /\
    max_attempts final = Some 3%Z /\
    translation final = Some t /\ stripped t.
Proof.
  destruct (app_invoke ascii_lower sample_repr sample_loads 25 (session_input sample_query 3)
                       (start_env script_three_rejections))
    as [[final|x] e'] eqn:Happ; [|vm_compute in Happ; discriminate].
  destruct (app_invoke_result_complete ascii_lower sample_repr sample_loads
              (session_input sample_query 3) final sample_query
              (start_env script_three_rejections) e' 25 eq_refl Happ)
    as (Hq & Hm & src & c & t & b & fb & a & _ & _ & _ & _ & Ht & Hst & _).
  exists final, e', t. split; [reflexivity|]. split; [exact Hq|].
  split; [exact Hm|]. split; [exact Ht | exact Hst].
Defined.

(** X8 under the default limit, on a UTF-8 standard output. The session of
    three rejections, typed with blanks around it: the last translation is
    printed, then the last feedback. The session whose last feedback is a
    lone surrogate: the translation is printed, and the [print] of the
    feedback raises. *)
Lemma main_prints_translation_and_feedback_witness :
  (8 <= 25)%nat /\
  (exists e',
     main ascii_lower sample_repr sample_loads utf8_accepts 25
          (lit "  Translate 'hello' to French ")
          (start_env script_three_rejections)
       = ({| printed := [lit "Salut"; lit "Use the formal register"];
             raised := None |}, e') /\
     (List.length (calls e') <= 8)%nat) /\
  (exists e',
     main ascii_lower sample_repr sample_loads utf8_accepts 25
          (lit "  Translate 'hello' to French ")
          (start_env script_surrogate_feedback)
       = ({| printed := [lit "Salut"]; raised := Some UnicodeEncodeError |}, e')).
Proof.
  assert (Hlimit : (8 <= 25)%nat) by lia.
  split; [exact Hlimit|]. split.
  - destruct (main_prints_translation_and_feedback ascii_lower sample_repr sample_loads
                utf8_accepts (lit "  Translate 'hello' to French ")
                (start_env script_three_rejections) 25 Hlimit)
      as (final & e' & t & b & fb & a & _ & _ & _ & _ & _ & _ & Hcalls & Hmain).
    exists e'. split; [|exact Hcalls].
    assert (He : e' = snd (main ascii_lower sample_repr sample_loads utf8_accepts 25
                                (lit "  Translate 'hello' to French ")
                                (start_env script_three_rejections)))
      by (rewrite Hmain; reflexivity).
    rewrite He. vm_compute. reflexivity.
  - destruct (main_prints_translation_and_feedback ascii_lower sample_repr sample_loads
                utf8_accepts (lit "  Translate 'hello' to French ")
                (start_env script_surrogate_feedback) 25 Hlimit)
      as (final & e' & t & b & fb & a & _ & _ & _ & _ & _ & _ & _ & Hmain).
    exists e'.
    assert (He : e' = snd (main ascii_lower sample_repr sample_loads utf8_accepts 25
                                (lit "  Translate 'hello' to French ")
                                (start_env script_surrogate_feedback)))
      by (rewrite Hmain; reflexivity).
    rewrite He. vm_compute. reflexivity.
Defined.

(** X10 on a request that names no language: the classifier is asked
    first, the extractor second; the answers " FR " and " hello " give the
    code [fr] and the source text "hello". *)
Lemma intent_calls_spelled_witness :
  query (session_input sample_query_plain 3) = Some sample_query_plain /\
  exists upd e',
    intent_node ascii_lower (session_input sample_query_plain 3)
                (start_env [lit " FR "; lit " hello "]) = (Ok upd, e') /\
    target_lang upd = Some (lit "fr") /\
    source_text upd = Some (lit "hello") /\
    calls e' =
      [ [ {| role := lit "system";
             content := lit "You are a classifier. Output exactly one token: en, ja, or fr." |};
          {| role := lit "user";
             content := lit "Decide target language for translation request:" ++ [10%N]
                        ++ lit "How would they say 'hello' in Paris?" |} ];
        [ {| role := lit "system"; content := lit "Extract only the text to be translated." |};
          {| role := lit "user";
             content := lit "How would they say 'hello' in Paris?" |} ] ].
Proof.
  split; [reflexivity|].
  destruct (intent_calls_spelled ascii_lower (session_input sample_query_plain 3)
              sample_query_plain (start_env [lit " FR "; lit " hello "]) eq_refl)
    as (upd & e' & Heq & Hcase).
  change (_detect_target_lang_rule ascii_lower sample_query_plain)
    with (@None str) in Hcase.
  cbv zeta in Hcase. destruct Hcase as (He & Hsrc & Hlang).
  exists upd, e'. split; [exact Heq|].
  split; [exact Hlang|]. split; [exact Hsrc|]. rewrite He. reflexivity.
Defined.

(** The session of three rejections takes seven node runs: under a
    recursion limit of 7 it ends in [GraphRecursionError] after the seventh,
    with nothing printed. *)
Example recursion_limit_seven_is_short :
  fst (main ascii_lower sample_repr sample_loads utf8_accepts 7
            (lit "Translate 'hello' to French")
            (start_env script_three_rejections))
    = {| printed := []; raised := Some GraphRecursionError |} /\
  List.length (calls (snd (main ascii_lower sample_repr sample_loads utf8_accepts 7
                                (lit "Translate 'hello' to French")
                                (start_env script_three_rejections)))) = 7%nat.
Proof. split; vm_compute; reflexivity. Qed.
